(** * MedicalRecords.sol: a shallow embedding and its ledger properties

    The contract [contracts/MedicalRecords.sol] is embedded as a state
    record (one field per storage variable), a small revert/event monad
    for the function bodies, and a transaction step that commits the
    storage on success and rolls it back on a revert or a panic. *)

From stdpp Require Import gmap strings list fin_maps.
From Stdlib Require Import NArith.

Local Open Scope N_scope.

(** ** Solidity value types *)

(** [uint256] values are naturals below [2^256]; Solidity 0.8 arithmetic
    is checked, so [++] panics instead of wrapping. *)
Abbreviation uint256 := N.

(** An [address] is a 160-bit number; the contract only compares addresses,
    [address(0)] is [0]. *)
Abbreviation address := N.

Definition MAX_UINT256 : N := 2 ^ 256 - 1.

Definition zero_address : N := 0.

(** [bytes(s).length > 0] *)
Definition nonempty (s : string) : bool :=
  match s with
  | EmptyString => false
  | String _ _ => true
  end.

(** ** Storage *)

Record MedicalRecord := mkMedicalRecord {
  recordId : string;
  encryptedDataHash : string;
  recordType : string;
  timestamp : N;
  uploadedBy : N;
  isActive : bool;
  metadata : string
}.

(** The value read from a storage slot that was never written. *)
Definition zero_record : MedicalRecord :=
  mkMedicalRecord EmptyString EmptyString EmptyString 0 0 false EmptyString.

(** Storage mappings are finite maps read with the type's zero value as
    default.  The nested mapping [patientRecords[a][i]] is keyed by the
    pair [(a, i)]. *)
Record State := mkState {
  patientRecords : gmap (N * N) MedicalRecord;
  patientRecordCount : gmap N N;
  recordIdExists : gmap string bool;
  authorizedPatients : gmap N bool;
  owner : N;
  patientRegistryContract : N;
  totalRecordsStored : N
}.

Definition record_at (s : State) (a i : N) : MedicalRecord :=
  default zero_record (patientRecords s !! (a, i)).

Definition count_of (s : State) (a : N) : N :=
  default 0 (patientRecordCount s !! a).

Definition id_used (s : State) (id : string) : bool :=
  default false (recordIdExists s !! id).

Definition authorized (s : State) (a : N) : bool :=
  default false (authorizedPatients s !! a).

Definition set_patientRecords (f : gmap (N * N) MedicalRecord → gmap (N * N) MedicalRecord)
    (s : State) : State :=
  mkState (f (patientRecords s)) (patientRecordCount s) (recordIdExists s)
          (authorizedPatients s) (owner s) (patientRegistryContract s)
          (totalRecordsStored s).

Definition set_patientRecordCount (f : gmap N N → gmap N N) (s : State) : State :=
  mkState (patientRecords s) (f (patientRecordCount s)) (recordIdExists s)
          (authorizedPatients s) (owner s) (patientRegistryContract s)
          (totalRecordsStored s).

Definition set_recordIdExists (f : gmap string bool → gmap string bool) (s : State) : State :=
  mkState (patientRecords s) (patientRecordCount s) (f (recordIdExists s))
          (authorizedPatients s) (owner s) (patientRegistryContract s)
          (totalRecordsStored s).

Definition set_authorizedPatients (f : gmap N bool → gmap N bool) (s : State) : State :=
  mkState (patientRecords s) (patientRecordCount s) (recordIdExists s)
          (f (authorizedPatients s)) (owner s) (patientRegistryContract s)
          (totalRecordsStored s).

Definition set_owner (o : N) (s : State) : State :=
  mkState (patientRecords s) (patientRecordCount s) (recordIdExists s)
          (authorizedPatients s) o (patientRegistryContract s)
          (totalRecordsStored s).

Definition set_patientRegistryContract (r : N) (s : State) : State :=
  mkState (patientRecords s) (patientRecordCount s) (recordIdExists s)
          (authorizedPatients s) (owner s) r (totalRecordsStored s).

Definition set_totalRecordsStored (n : N) (s : State) : State :=
  mkState (patientRecords s) (patientRecordCount s) (recordIdExists s)
          (authorizedPatients s) (owner s) (patientRegistryContract s) n.

(** Field assignments [r.encryptedDataHash = h], [r.metadata = m],
    [r.isActive = b] on a stored struct. *)
Definition with_encryptedDataHash (h : string) (r : MedicalRecord) : MedicalRecord :=
  mkMedicalRecord (recordId r) h (recordType r) (timestamp r) (uploadedBy r)
                  (isActive r) (metadata r).

Definition with_metadata (m : string) (r : MedicalRecord) : MedicalRecord :=
  mkMedicalRecord (recordId r) (encryptedDataHash r) (recordType r) (timestamp r)
                  (uploadedBy r) (isActive r) m.

Definition with_isActive (b : bool) (r : MedicalRecord) : MedicalRecord :=
  mkMedicalRecord (recordId r) (encryptedDataHash r) (recordType r) (timestamp r)
                  (uploadedBy r) b (metadata r).

(** ** Events, failures and the execution monad *)

Inductive Event :=
| MedicalRecordAdded (patientAddress : N) (rid rtype : string) (ts : N) (by_ : N)
| MedicalRecordUpdated (patientAddress : N) (rid : string) (ts : N)
| MedicalRecordDeactivated (patientAddress : N) (rid : string) (ts : N)
| PatientAuthorized (patientAddress : N) (ts : N)
| PatientDeauthorized (patientAddress : N) (ts : N).

(** A failed [require] reverts with its message; checked arithmetic and
    array indexing panic with a code ([0x11] overflow, [0x32] index). *)
Inductive Failure :=
| Revert (reason : string)
| Panic (code : N).

Inductive Result (A : Type) :=
| Ok (a : A)
| Fail (f : Failure).
Arguments Ok {A} a.
Arguments Fail {A} f.

(** The transaction context: [msg.sender] and [block.timestamp]. *)
Record Msg := mkMsg {
  msg_sender : N;
  block_timestamp : N
}.

(** A function body reads and writes the storage, appends to the event
    log, and may abort. *)
Definition M (A : Type) : Type := State → Result (A * State * list Event).

#[global] Instance M_mret : MRet M := λ A a s, Ok (a, s, []).

#[global] Instance M_bind : MBind M := λ A B k m s,
  match m s with
  | Ok (a, s1, e1) =>
      match k a s1 with
      | Ok (b, s2, e2) => Ok (b, s2, e1 ++ e2)
      | Fail f => Fail f
      end
  | Fail f => Fail f
  end.

Definition get : M State := λ s, Ok (s, s, []).
Definition modify (f : State → State) : M unit := λ s, Ok (tt, f s, []).
Definition emit (e : Event) : M unit := λ s, Ok (tt, s, [e]).
Definition abort {A} (f : Failure) : M A := λ _, Fail f.

Definition require (b : bool) (reason : string) : M unit :=
  if b then mret tt else abort (Revert reason).

(** [x++] on a [uint256]. *)
Definition checked_inc (n : N) : M N :=
  if n <? MAX_UINT256 then mret (n + 1) else abort (Panic 17).

(** [for (uint256 i = i0; i < i0 + n; i++) acc = body(i, acc)] *)
Fixpoint for_upto {A} (n : nat) (i : N) (body : N → A → M A) (acc : A) : M A :=
  match n with
  | O => mret acc
  | S n' =>
      acc' ← body i acc;
      i' ← checked_inc i;
      for_upto n' i' body acc'
  end.

(** ** Revert reasons of the contract *)

Definition ERR_ONLY_OWNER : string := "Only owner can call this function".
Definition ERR_NOT_AUTHORIZED : string := "Not authorized to add records".
Definition ERR_PATIENT_OR_OWNER : string := "Only patient or owner can access".
Definition ERR_INVALID_ADDRESS : string := "Invalid address".
Definition ERR_EMPTY_ID : string := "Record ID cannot be empty".
Definition ERR_EMPTY_HASH : string := "Data hash cannot be empty".
Definition ERR_ID_EXISTS : string := "Record ID already exists".
Definition ERR_INVALID_INDEX : string := "Invalid record index".
Definition ERR_NOT_ACTIVE : string := "Record not active".
Definition ERR_ALREADY_INACTIVE : string := "Record already inactive".
Definition ERR_ZERO_OWNER : string := "New owner cannot be zero address".

(** ** Modifiers *)

Definition onlyOwner (msg : Msg) : M unit :=
  s ← get;
  require (msg_sender msg =? owner s) ERR_ONLY_OWNER.

Definition onlyAuthorizedPatient (msg : Msg) : M unit :=
  s ← get;
  require (authorized s (msg_sender msg) || (msg_sender msg =? owner s))
          ERR_NOT_AUTHORIZED.

Definition onlyPatientOrOwner (msg : Msg) (_patientAddress : N) : M unit :=
  s ← get;
  require ((msg_sender msg =? _patientAddress) || (msg_sender msg =? owner s))
          ERR_PATIENT_OR_OWNER.

(** ** Constructor and functions *)

Definition constructor (msg : Msg) : State :=
  mkState ∅ ∅ ∅ ∅ (msg_sender msg) 0 0.

Definition setPatientRegistryContract (msg : Msg) (_registryAddress : N) : M unit :=
  onlyOwner msg;;
  modify (set_patientRegistryContract _registryAddress).

Definition authorizePatient (msg : Msg) (_patientAddress : N) : M bool :=
  onlyOwner msg;;
  require (negb (_patientAddress =? zero_address)) ERR_INVALID_ADDRESS;;
  modify (set_authorizedPatients <[_patientAddress := true]>);;
  emit (PatientAuthorized _patientAddress (block_timestamp msg));;
  mret true.

Definition deauthorizePatient (msg : Msg) (_patientAddress : N) : M bool :=
  onlyOwner msg;;
  modify (set_authorizedPatients <[_patientAddress := false]>);;
  emit (PatientDeauthorized _patientAddress (block_timestamp msg));;
  mret true.

Definition addMedicalRecord (msg : Msg)
    (_recordId _encryptedDataHash _recordType _metadata : string) : M bool :=
  onlyAuthorizedPatient msg;;
  require (nonempty _recordId) ERR_EMPTY_ID;;
  require (nonempty _encryptedDataHash) ERR_EMPTY_HASH;;
  s ← get;
  require (negb (id_used s _recordId)) ERR_ID_EXISTS;;
  let recordIndex := count_of s (msg_sender msg) in
  modify (set_patientRecords
            <[(msg_sender msg, recordIndex) :=
                mkMedicalRecord _recordId _encryptedDataHash _recordType
                                (block_timestamp msg) (msg_sender msg) true _metadata]>);;
  modify (set_recordIdExists <[_recordId := true]>);;
  s1 ← get;
  c ← checked_inc (count_of s1 (msg_sender msg));
  modify (set_patientRecordCount <[msg_sender msg := c]>);;
  s2 ← get;
  t ← checked_inc (totalRecordsStored s2);
  modify (set_totalRecordsStored t);;
  emit (MedicalRecordAdded (msg_sender msg) _recordId _recordType
                           (block_timestamp msg) (msg_sender msg));;
  mret true.

Definition updateMedicalRecord (msg : Msg) (_recordIndex : N)
    (_encryptedDataHash _metadata : string) : M bool :=
  onlyAuthorizedPatient msg;;
  s ← get;
  require (_recordIndex <? count_of s (msg_sender msg)) ERR_INVALID_INDEX;;
  require (isActive (record_at s (msg_sender msg) _recordIndex)) ERR_NOT_ACTIVE;;
  require (nonempty _encryptedDataHash) ERR_EMPTY_HASH;;
  modify (λ s, set_patientRecords
                 <[(msg_sender msg, _recordIndex) :=
                     with_encryptedDataHash _encryptedDataHash
                       (record_at s (msg_sender msg) _recordIndex)]> s);;
  modify (λ s, set_patientRecords
                 <[(msg_sender msg, _recordIndex) :=
                     with_metadata _metadata
                       (record_at s (msg_sender msg) _recordIndex)]> s);;
  s1 ← get;
  emit (MedicalRecordUpdated (msg_sender msg)
          (recordId (record_at s1 (msg_sender msg) _recordIndex))
          (block_timestamp msg));;
  mret true.

Definition deactivateMedicalRecord (msg : Msg) (_recordIndex : N) : M bool :=
  onlyAuthorizedPatient msg;;
  s ← get;
  require (_recordIndex <? count_of s (msg_sender msg)) ERR_INVALID_INDEX;;
  require (isActive (record_at s (msg_sender msg) _recordIndex)) ERR_ALREADY_INACTIVE;;
  modify (λ s, set_patientRecords
                 <[(msg_sender msg, _recordIndex) :=
                     with_isActive false
                       (record_at s (msg_sender msg) _recordIndex)]> s);;
  s1 ← get;
  emit (MedicalRecordDeactivated (msg_sender msg)
          (recordId (record_at s1 (msg_sender msg) _recordIndex))
          (block_timestamp msg));;
  mret true.

Definition getMedicalRecord (msg : Msg) (_patientAddress _recordIndex : N)
    : M MedicalRecord :=
  onlyPatientOrOwner msg _patientAddress;;
  s ← get;
  require (_recordIndex <? count_of s _patientAddress) ERR_INVALID_INDEX;;
  mret (record_at s _patientAddress _recordIndex).

Definition getPatientRecordCount (msg : Msg) (_patientAddress : N) : M N :=
  s ← get;
  mret (count_of s _patientAddress).

(** [recordIds[index] = v] on a memory array: out of bounds panics. *)
Definition array_store (arr : list string) (index : N) (v : string) : M (list string) :=
  if index <? N.of_nat (length arr)
  then mret (<[N.to_nat index := v]> arr)
  else abort (Panic 50).

Definition getPatientRecordIds (msg : Msg) (_patientAddress : N) : M (list string) :=
  onlyPatientOrOwner msg _patientAddress;;
  s ← get;
  let count := count_of s _patientAddress in
  activeCount ←
    for_upto (N.to_nat count) 0
      (λ i activeCount,
         if isActive (record_at s _patientAddress i)
         then checked_inc activeCount
         else mret activeCount)
      0;
  let recordIds := replicate (N.to_nat activeCount) EmptyString in
  '(recordIds, _) ←
    for_upto (N.to_nat count) 0
      (λ i '(recordIds, index),
         if isActive (record_at s _patientAddress i)
         then
           (recordIds' ← array_store recordIds index
                            (recordId (record_at s _patientAddress i));
            index' ← checked_inc index;
            mret (recordIds', index'))
         else mret (recordIds, index))
      (recordIds, 0);
  mret recordIds.

Definition isPatientAuthorized (msg : Msg) (_patientAddress : N) : M bool :=
  s ← get;
  mret (authorized s _patientAddress).

Definition getTotalRecords (msg : Msg) : M N :=
  s ← get;
  mret (totalRecordsStored s).

Definition transferOwnership (msg : Msg) (_newOwner : N) : M unit :=
  onlyOwner msg;;
  require (negb (_newOwner =? zero_address)) ERR_ZERO_OWNER;;
  modify (set_owner _newOwner).

Definition getMyRecordCount (msg : Msg) : M N :=
  s ← get;
  mret (count_of s (msg_sender msg)).

Definition amIAuthorized (msg : Msg) : M bool :=
  s ← get;
  mret (authorized s (msg_sender msg)).

(** ** Transactions *)

(** The external functions of the contract.  (The compiler-generated
    getters of the public state variables are plain reads of [State].) *)
Inductive Call :=
| SetPatientRegistryContract (_registryAddress : N)
| AuthorizePatient (_patientAddress : N)
| DeauthorizePatient (_patientAddress : N)
| AddMedicalRecord (_recordId _encryptedDataHash _recordType _metadata : string)
| UpdateMedicalRecord (_recordIndex : N) (_encryptedDataHash _metadata : string)
| DeactivateMedicalRecord (_recordIndex : N)
| GetMedicalRecord (_patientAddress _recordIndex : N)
| GetPatientRecordCount (_patientAddress : N)
| GetPatientRecordIds (_patientAddress : N)
| IsPatientAuthorized (_patientAddress : N)
| GetTotalRecords
| TransferOwnership (_newOwner : N)
| GetMyRecordCount
| AmIAuthorized.

Inductive RetVal :=
| VUnit
| VBool (b : bool)
| VUint (n : N)
| VRecord (r : MedicalRecord)
| VStrings (l : list string).

Definition dispatch (msg : Msg) (c : Call) : M RetVal :=
  match c with
  | SetPatientRegistryContract a => setPatientRegistryContract msg a;; mret VUnit
  | AuthorizePatient a => b ← authorizePatient msg a; mret (VBool b)
  | DeauthorizePatient a => b ← deauthorizePatient msg a; mret (VBool b)
  | AddMedicalRecord id h t m => b ← addMedicalRecord msg id h t m; mret (VBool b)
  | UpdateMedicalRecord i h m => b ← updateMedicalRecord msg i h m; mret (VBool b)
  | DeactivateMedicalRecord i => b ← deactivateMedicalRecord msg i; mret (VBool b)
  | GetMedicalRecord a i => r ← getMedicalRecord msg a i; mret (VRecord r)
  | GetPatientRecordCount a => n ← getPatientRecordCount msg a; mret (VUint n)
  | GetPatientRecordIds a => l ← getPatientRecordIds msg a; mret (VStrings l)
  | IsPatientAuthorized a => b ← isPatientAuthorized msg a; mret (VBool b)
  | GetTotalRecords => n ← getTotalRecords msg; mret (VUint n)
  | TransferOwnership a => transferOwnership msg a;; mret VUnit
  | GetMyRecordCount => n ← getMyRecordCount msg; mret (VUint n)
  | AmIAuthorized => b ← amIAuthorized msg; mret (VBool b)
  end.

(** One transaction: the new storage is committed when the call returns,
    and the old storage is kept when it reverts or panics. *)
Definition execute (s : State) (msg : Msg) (c : Call)
    : State * Result (RetVal * list Event) :=
  match dispatch msg c s with
  | Ok (v, s', evs) => (s', Ok (v, evs))
  | Fail f => (s, Fail f)
  end.

(** A history of transactions, oldest first. *)
Fixpoint run (s : State) (tr : list (Msg * Call)) : State :=
  match tr with
  | [] => s
  | (msg, c) :: tr' => run (fst (execute s msg c)) tr'
  end.

(** The states the deployed contract can be in. *)
Definition reachable (s : State) : Prop :=
  ∃ deploy tr, s = run (constructor deploy) tr.

(** ** The error kinds of the specification *)

Inductive ErrorKind :=
| Unauthorized
| InvalidArgument
| AlreadyExists
| OutOfRange
| InvalidState.

Definition error_kind (f : Failure) : option ErrorKind :=
  match f with
  | Revert r =>
      if decide (r = ERR_ONLY_OWNER) then Some Unauthorized
      else if decide (r = ERR_NOT_AUTHORIZED) then Some Unauthorized
      else if decide (r = ERR_PATIENT_OR_OWNER) then Some Unauthorized
      else if decide (r = ERR_INVALID_ADDRESS) then Some InvalidArgument
      else if decide (r = ERR_ZERO_OWNER) then Some InvalidArgument
      else if decide (r = ERR_EMPTY_ID) then Some InvalidArgument
      else if decide (r = ERR_EMPTY_HASH) then Some InvalidArgument
      else if decide (r = ERR_ID_EXISTS) then Some AlreadyExists
      else if decide (r = ERR_INVALID_INDEX) then Some OutOfRange
      else if decide (r = ERR_NOT_ACTIVE) then Some InvalidState
      else if decide (r = ERR_ALREADY_INACTIVE) then Some InvalidState
      else None
  | Panic _ => None
  end.

(** ** Derived observations used in the statements *)

(** The authorization gate of the write operations, as a test. *)
Definition passes_gate (s : State) (caller : N) : bool :=
  authorized s caller || (caller =? owner s).

(** The records stored under [a]: indices [0 .. count-1]. *)
Definition records_of (s : State) (a : N) : list MedicalRecord :=
  List.map (λ i, record_at s a (N.of_nat i)) (seq 0 (N.to_nat (count_of s a))).

Definition active_ids (s : State) (a : N) : list string :=
  List.map recordId (List.filter isActive (records_of s a)).

Definition sum_counts (s : State) : N :=
  map_fold (λ _ n acc, n + acc) 0 (patientRecordCount s).

(** Number of [addMedicalRecord] calls by [a] in a history that returned. *)
Fixpoint successful_adds (a : N) (s : State) (tr : list (Msg * Call)) : N :=
  match tr with
  | [] => 0
  | (msg, c) :: tr' =>
      (match c, snd (execute s msg c) with
       | AddMedicalRecord _ _ _ _, Ok _ => if msg_sender msg =? a then 1 else 0
       | _, _ => 0
       end) + successful_adds a (fst (execute s msg c)) tr'
  end.

(** The storage after a successful [addMedicalRecord]. *)
Definition add_post (msg : Msg) (id h t m : string) (s : State) : State :=
  mkState
    (<[(msg_sender msg, count_of s (msg_sender msg)) :=
         mkMedicalRecord id h t (block_timestamp msg) (msg_sender msg) true m]>
       (patientRecords s))
    (<[msg_sender msg := count_of s (msg_sender msg) + 1]> (patientRecordCount s))
    (<[id := true]> (recordIdExists s))
    (authorizedPatients s) (owner s) (patientRegistryContract s)
    (totalRecordsStored s + 1).

(** The storage after a successful [updateMedicalRecord]. *)
Definition update_post (msg : Msg) (i : N) (h m : string) (s : State) : State :=
  set_patientRecords
    <[(msg_sender msg, i) :=
        with_metadata m (with_encryptedDataHash h (record_at s (msg_sender msg) i))]>
    s.

(** The storage after a successful [deactivateMedicalRecord]. *)
Definition deactivate_post (msg : Msg) (i : N) (s : State) : State :=
  set_patientRecords
    <[(msg_sender msg, i) := with_isActive false (record_at s (msg_sender msg) i)]> s.

Definition alice : N := 10.
Definition bob : N := 11.
Definition carol : N := 12.

(** The example of the specification: [r1], [r2], [r3] added under one
    address, then index 1 deactivated. *)
Definition example_history : list (Msg * Call) :=
  [ (mkMsg alice 100, AuthorizePatient bob);
    (mkMsg bob 101, AddMedicalRecord "r1" "0xa1" "lab" "{}");
    (mkMsg bob 102, AddMedicalRecord "r2" "0xa2" "lab" "{}");
    (mkMsg bob 103, AddMedicalRecord "r3" "0xa3" "visit" "{}");
    (mkMsg bob 104, DeactivateMedicalRecord 1) ].

Definition example_state : State :=
  run (constructor (mkMsg alice 99)) example_history.

(** ** Predicates used in the proofs *)

(** A computation that never writes the storage. *)
Definition read_only {A} (m : M A) : Prop :=
  ∀ s a s' evs, m s = Ok (a, s', evs) → s' = s.

(** The records of [a] at indices [j .. j+n-1], as the loops of
    [getPatientRecordIds] visit them. *)
Definition window (s0 : State) (a : N) (j n : nat) : list MedicalRecord :=
  List.map (λ k, record_at s0 a (N.of_nat k)) (seq j n).

(** The functions under the [onlyOwner] modifier. *)
Definition is_owner_only (c : Call) : bool :=
  match c with
  | SetPatientRegistryContract _ | AuthorizePatient _ | DeauthorizePatient _
  | TransferOwnership _ => true
  | _ => false
  end.

(** The functions declared [view]. *)
Definition is_view (c : Call) : bool :=
  match c with
  | GetMedicalRecord _ _ | GetPatientRecordCount _ | GetPatientRecordIds _
  | IsPatientAuthorized _ | GetTotalRecords | GetMyRecordCount | AmIAuthorized => true
  | _ => false
  end.

(** The storage a transaction may commit, with the checks it passed. *)
Inductive commits (s : State) (msg : Msg) : State → Prop :=
| commits_nothing : commits s msg s
| commits_registry a : commits s msg (set_patientRegistryContract a s)
| commits_auth a b : commits s msg (set_authorizedPatients <[a := b]> s)
| commits_owner a :
    msg_sender msg = owner s → a ≠ zero_address → commits s msg (set_owner a s)
| commits_add id h t m :
    passes_gate s (msg_sender msg) = true →
    nonempty id = true → nonempty h = true →
    id_used s id = false →
    count_of s (msg_sender msg) < MAX_UINT256 →
    totalRecordsStored s < MAX_UINT256 →
    commits s msg (add_post msg id h t m s)
| commits_update i h m :
    i < count_of s (msg_sender msg) →
    isActive (record_at s (msg_sender msg) i) = true →
    commits s msg (update_post msg i h m s)
| commits_deactivate i :
    i < count_of s (msg_sender msg) →
    isActive (record_at s (msg_sender msg) i) = true →
    commits s msg (deactivate_post msg i s).

(** The invariant of the ledger: stored ids are non-empty, marked used,
    backed by a stored record and pairwise distinct; the total is the sum
    of the counts and fits a [uint256]. *)
Record ledger_inv (s : State) : Prop := mk_ledger_inv {
  inv_nonempty : ∀ a i, i < count_of s a →
    nonempty (recordId (record_at s a i)) = true;
  inv_marked : ∀ a i, i < count_of s a →
    id_used s (recordId (record_at s a i)) = true;
  inv_backed : ∀ id, id_used s id = true →
    ∃ a i, i < count_of s a ∧ recordId (record_at s a i) = id;
  inv_unique : ∀ a i b j, i < count_of s a → j < count_of s b →
    recordId (record_at s a i) = recordId (record_at s b j) → a = b ∧ i = j;
  inv_total : totalRecordsStored s = sum_counts s;
  inv_bound : totalRecordsStored s ≤ MAX_UINT256
}.

(** ** A transaction and the checks it passed *)

(** The storage committed by a call, with the call that committed it and
    the [require]s it went through; a call that fails, and every [view],
    commits the storage it found. *)
Inductive effect (s : State) (msg : Msg) : Call → State → Prop :=
| effect_none c : effect s msg c s
| effect_registry r :
    msg_sender msg = owner s →
    effect s msg (SetPatientRegistryContract r) (set_patientRegistryContract r s)
| effect_authorize a :
    msg_sender msg = owner s → a ≠ zero_address →
    effect s msg (AuthorizePatient a) (set_authorizedPatients <[a := true]> s)
| effect_deauthorize a :
    msg_sender msg = owner s →
    effect s msg (DeauthorizePatient a) (set_authorizedPatients <[a := false]> s)
| effect_transfer a :
    msg_sender msg = owner s → a ≠ zero_address →
    effect s msg (TransferOwnership a) (set_owner a s)
| effect_add id h t m :
    passes_gate s (msg_sender msg) = true →
    nonempty id = true → nonempty h = true →
    id_used s id = false →
    count_of s (msg_sender msg) < MAX_UINT256 →
    totalRecordsStored s < MAX_UINT256 →
    effect s msg (AddMedicalRecord id h t m) (add_post msg id h t m s)
| effect_update i h m :
    passes_gate s (msg_sender msg) = true →
    i < count_of s (msg_sender msg) →
    isActive (record_at s (msg_sender msg) i) = true →
    nonempty h = true →
    effect s msg (UpdateMedicalRecord i h m) (update_post msg i h m s)
| effect_deactivate i :
    passes_gate s (msg_sender msg) = true →
    i < count_of s (msg_sender msg) →
    isActive (record_at s (msg_sender msg) i) = true →
    effect s msg (DeactivateMedicalRecord i) (deactivate_post msg i s).

(** The events of a history: those of the transactions that returned, in
    order. *)
Fixpoint events_of (s : State) (tr : list (Msg * Call)) : list Event :=
  match tr with
  | [] => []
  | (msg, c) :: tr' =>
      match snd (execute s msg c) with
      | Ok (_, evs) => evs
      | Fail _ => []
      end ++ events_of (fst (execute s msg c)) tr'
  end.

(** What a listener of the events of address [a] keeps: an id is appended
    on [MedicalRecordAdded] and dropped on [MedicalRecordDeactivated]. *)
Fixpoint replay_ids (a : N) (ids : list string) (evs : list Event) : list string :=
  match evs with
  | [] => ids
  | MedicalRecordAdded p rid _ _ _ :: evs' =>
      replay_ids a (if p =? a then ids ++ [rid] else ids) evs'
  | MedicalRecordDeactivated p rid _ :: evs' =>
      replay_ids a
        (if p =? a then List.filter (λ x, negb (String.eqb x rid)) ids else ids)
        evs'
  | _ :: evs' => replay_ids a ids evs'
  end.

(** ** The scripts that drive the contract *)



(** [scripts/authorize-patient.js], the calls of [main] on a deployed
    contract in storage [s]: it leaves when the patient is authorized
    already, authorizes otherwise, and reads the flag back. *)
Inductive AuthorizeExit :=
| AlreadyAuthorized
| AuthorizedVerified (s : State)
| AuthorizedUnverified (s : State)
| AuthorizeFailed (f : Failure).

Definition authorize_patient (s : State) (caller patient : N)
    (t_check t_auth t_verify : N) : AuthorizeExit :=
  match execute s (mkMsg caller t_check) (IsPatientAuthorized patient) with
  | (_, Fail f) => AuthorizeFailed f
  | (_, Ok (VBool true, _)) => AlreadyAuthorized
  | (s0, Ok _) =>
      match execute s0 (mkMsg caller t_auth) (AuthorizePatient patient) with
      | (_, Fail f) => AuthorizeFailed f
      | (s1, Ok _) =>
          match execute s1 (mkMsg caller t_verify) (IsPatientAuthorized patient) with
          | (_, Fail f) => AuthorizeFailed f
          | (s2, Ok (VBool true, _)) => AuthorizedVerified s2
          | (s2, Ok _) => AuthorizedUnverified s2
          end
      end
  end.

(** * Proofs *)

(** ** The function bodies, case by case *)

Ltac unfold_monad :=
  unfold require, checked_inc, abort, get, modify, emit;
  unfold mbind, M_bind, mret, M_mret;
  cbv beta iota.

Ltac unfold_monad_in H :=
  unfold require, checked_inc, abort, get, modify, emit in H;
  unfold mbind, M_bind, mret, M_mret in H;
  cbv beta iota in H.

Ltac unfold_body :=
  unfold onlyOwner, onlyAuthorizedPatient, onlyPatientOrOwner, passes_gate;
  unfold_monad.

Lemma setPatientRegistryContract_eq msg a s :
  setPatientRegistryContract msg a s =
    if msg_sender msg =? owner s
    then Ok (tt, set_patientRegistryContract a s, [])
    else Fail (Revert ERR_ONLY_OWNER).
Proof.
  unfold setPatientRegistryContract; unfold_body.
  destruct (msg_sender msg =? owner s); reflexivity.
Qed.

Lemma authorizePatient_eq msg a s :
  authorizePatient msg a s =
    if msg_sender msg =? owner s
    then if a =? zero_address
         then Fail (Revert ERR_INVALID_ADDRESS)
         else Ok (true, set_authorizedPatients <[a := true]> s,
                  [PatientAuthorized a (block_timestamp msg)])
    else Fail (Revert ERR_ONLY_OWNER).
Proof.
  unfold authorizePatient; unfold_body.
  destruct (msg_sender msg =? owner s); [|reflexivity].
  destruct (a =? zero_address); reflexivity.
Qed.

Lemma deauthorizePatient_eq msg a s :
  deauthorizePatient msg a s =
    if msg_sender msg =? owner s
    then Ok (true, set_authorizedPatients <[a := false]> s,
             [PatientDeauthorized a (block_timestamp msg)])
    else Fail (Revert ERR_ONLY_OWNER).
Proof.
  unfold deauthorizePatient; unfold_body.
  destruct (msg_sender msg =? owner s); reflexivity.
Qed.

Lemma transferOwnership_eq msg a s :
  transferOwnership msg a s =
    if msg_sender msg =? owner s
    then if a =? zero_address
         then Fail (Revert ERR_ZERO_OWNER)
         else Ok (tt, set_owner a s, [])
    else Fail (Revert ERR_ONLY_OWNER).
Proof.
  unfold transferOwnership; unfold_body.
  destruct (msg_sender msg =? owner s); [|reflexivity].
  destruct (a =? zero_address); reflexivity.
Qed.

Lemma addMedicalRecord_eq msg id h t m s :
  addMedicalRecord msg id h t m s =
    if passes_gate s (msg_sender msg) then
      if nonempty id then
        if nonempty h then
          if id_used s id then Fail (Revert ERR_ID_EXISTS)
          else if count_of s (msg_sender msg) <? MAX_UINT256 then
            if totalRecordsStored s <? MAX_UINT256 then
              Ok (true, add_post msg id h t m s,
                  [MedicalRecordAdded (msg_sender msg) id t (block_timestamp msg)
                     (msg_sender msg)])
            else Fail (Panic 17)
          else Fail (Panic 17)
        else Fail (Revert ERR_EMPTY_HASH)
      else Fail (Revert ERR_EMPTY_ID)
    else Fail (Revert ERR_NOT_AUTHORIZED).
Proof.
  unfold addMedicalRecord; unfold_body.
  destruct (authorized s (msg_sender msg) || (msg_sender msg =? owner s));
    [|reflexivity].
  destruct (nonempty id); [|reflexivity].
  destruct (nonempty h); [|reflexivity].
  destruct (id_used s id); [reflexivity|]. cbv beta iota delta [negb].
  change (count_of (set_recordIdExists _ (set_patientRecords _ s)) (msg_sender msg))
    with (count_of s (msg_sender msg)).
  destruct (count_of s (msg_sender msg) <? MAX_UINT256); [|reflexivity].
  cbn [totalRecordsStored set_patientRecordCount set_recordIdExists set_patientRecords].
  destruct (totalRecordsStored s <? MAX_UINT256); reflexivity.
Qed.

Lemma record_at_mk a i r recs cnt ids auth o reg tot :
  record_at (mkState (<[(a, i) := r]> recs) cnt ids auth o reg tot) a i = r.
Proof. unfold record_at. cbn. rewrite lookup_insert_eq. reflexivity. Qed.

Lemma updateMedicalRecord_eq msg i h m s :
  updateMedicalRecord msg i h m s =
    if passes_gate s (msg_sender msg) then
      if i <? count_of s (msg_sender msg) then
        if isActive (record_at s (msg_sender msg) i) then
          if nonempty h then
            Ok (true, update_post msg i h m s,
                [MedicalRecordUpdated (msg_sender msg)
                   (recordId (record_at s (msg_sender msg) i)) (block_timestamp msg)])
          else Fail (Revert ERR_EMPTY_HASH)
        else Fail (Revert ERR_NOT_ACTIVE)
      else Fail (Revert ERR_INVALID_INDEX)
    else Fail (Revert ERR_NOT_AUTHORIZED).
Proof.
  unfold updateMedicalRecord; unfold_body.
  destruct (authorized s (msg_sender msg) || (msg_sender msg =? owner s));
    [|reflexivity].
  destruct (i <? count_of s (msg_sender msg)); [|reflexivity].
  destruct (isActive (record_at s (msg_sender msg) i)); [|reflexivity].
  destruct (nonempty h); [|reflexivity].
  cbn -[record_at]. unfold update_post, set_patientRecords. cbn -[record_at].
  rewrite !record_at_mk, insert_insert_eq. reflexivity.
Qed.

Lemma deactivateMedicalRecord_eq msg i s :
  deactivateMedicalRecord msg i s =
    if passes_gate s (msg_sender msg) then
      if i <? count_of s (msg_sender msg) then
        if isActive (record_at s (msg_sender msg) i) then
          Ok (true, deactivate_post msg i s,
              [MedicalRecordDeactivated (msg_sender msg)
                 (recordId (record_at s (msg_sender msg) i)) (block_timestamp msg)])
        else Fail (Revert ERR_ALREADY_INACTIVE)
      else Fail (Revert ERR_INVALID_INDEX)
    else Fail (Revert ERR_NOT_AUTHORIZED).
Proof.
  unfold deactivateMedicalRecord; unfold_body.
  destruct (authorized s (msg_sender msg) || (msg_sender msg =? owner s));
    [|reflexivity].
  destruct (i <? count_of s (msg_sender msg)); [|reflexivity].
  destruct (isActive (record_at s (msg_sender msg) i)); [|reflexivity].
  cbn -[record_at]. unfold deactivate_post, set_patientRecords.
  rewrite !record_at_mk. reflexivity.
Qed.

(** ** Reads leave the storage alone *)

Lemma read_only_mret {A} (a : A) : read_only (mret a).
Proof. intros s a' s' evs H. unfold_monad_in H. congruence. Qed.

Lemma read_only_get : read_only get.
Proof. intros s a' s' evs H. unfold_monad_in H. congruence. Qed.

Lemma read_only_abort {A} f : read_only (@abort A f).
Proof. intros s a' s' evs H. unfold_monad_in H. discriminate. Qed.

Lemma read_only_require b r : read_only (require b r).
Proof. destruct b; [apply read_only_mret | apply read_only_abort]. Qed.

Lemma read_only_checked_inc n : read_only (checked_inc n).
Proof.
  unfold checked_inc.
  destruct (n <? MAX_UINT256); [apply read_only_mret | apply read_only_abort].
Qed.

Lemma read_only_array_store arr i v : read_only (array_store arr i v).
Proof.
  unfold array_store.
  destruct (i <? _); [apply read_only_mret | apply read_only_abort].
Qed.

Lemma read_only_bind {A B} (m : M A) (k : A → M B) :
  read_only m → (∀ a, read_only (k a)) → read_only (m ≫= k).
Proof.
  intros Hm Hk s b s' evs H. unfold mbind, M_bind in H.
  destruct (m s) as [[[a s1] e1]|] eqn:E1; [|discriminate].
  destruct (k a s1) as [[[b' s2] e2]|] eqn:E2; [|discriminate].
  injection H as -> -> _.
  apply Hm in E1. apply Hk in E2. congruence.
Qed.

Lemma read_only_for_upto {A} (body : N → A → M A) n :
  (∀ i acc, read_only (body i acc)) →
  ∀ i acc, read_only (for_upto n i body acc).
Proof.
  intros Hb. induction n as [|n IH]; intros i acc; cbn [for_upto].
  - apply read_only_mret.
  - apply read_only_bind; [apply Hb|]. intros acc'.
    apply read_only_bind; [apply read_only_checked_inc|]. intros i'. apply IH.
Qed.

Create HintDb read_only.
#[local] Hint Resolve read_only_mret read_only_get read_only_abort read_only_require
  read_only_checked_inc read_only_array_store : read_only.

Ltac read_only_tac :=
  repeat first
    [ apply read_only_bind; [|intros ?]
    | apply read_only_for_upto; intros ? ?
    | progress auto with read_only
    | match goal with
      | |- read_only (if ?b then _ else _) => destruct b
      | |- read_only (match ?p with (_, _) => _ end) => destruct p
      | |- read_only (let '(_, _) := ?p in _) => destruct p
      end ].

Lemma getMedicalRecord_read_only msg a i : read_only (getMedicalRecord msg a i).
Proof. unfold getMedicalRecord, onlyPatientOrOwner. read_only_tac. Qed.

Lemma getPatientRecordIds_read_only msg a : read_only (getPatientRecordIds msg a).
Proof. unfold getPatientRecordIds, onlyPatientOrOwner. read_only_tac. Qed.

(** ** The two passes of [getPatientRecordIds] *)

Section RecordIdsLoops.

Variables (s0 : State) (a : N).

Lemma window_S j n :
  window s0 a j (S n) = record_at s0 a (N.of_nat j) :: window s0 a (S j) n.
Proof. reflexivity. Qed.

Lemma first_pass n : ∀ (j : nat) (acc : N) (s : State),
  N.of_nat (j + n) ≤ MAX_UINT256 →
  acc + N.of_nat n ≤ MAX_UINT256 →
  for_upto n (N.of_nat j)
    (λ i activeCount,
       if isActive (record_at s0 a i)
       then checked_inc activeCount
       else mret activeCount) acc s
  = Ok (acc + N.of_nat (length (List.filter isActive (window s0 a j n))), s, []).
Proof.
  induction n as [|n IH]; intros j acc s Hj Hacc.
  - cbn. rewrite N.add_0_r. reflexivity.
  - cbn [for_upto]. rewrite window_S. cbn [List.filter].
    assert (Hi : (N.of_nat j <? MAX_UINT256) = true) by (apply N.ltb_lt; lia).
    destruct (isActive (record_at s0 a (N.of_nat j))) eqn:Eact.
    + assert (Ha : (acc <? MAX_UINT256) = true) by (apply N.ltb_lt; lia).
      unfold_monad. rewrite Ha, Hi. cbv beta iota.
      replace (N.of_nat j + 1) with (N.of_nat (S j)) by lia.
      rewrite IH by lia. cbn [length app]. f_equal. f_equal. f_equal. lia.
    + unfold_monad. rewrite Hi. cbv beta iota.
      replace (N.of_nat j + 1) with (N.of_nat (S j)) by lia.
      rewrite IH by lia. reflexivity.
Qed.

Lemma second_pass n : ∀ (j : nat) (pre : list string) (k : nat) (s : State),
  N.of_nat (j + n) ≤ MAX_UINT256 →
  N.of_nat (length pre + k) ≤ MAX_UINT256 →
  (length (List.filter isActive (window s0 a j n)) ≤ k)%nat →
  for_upto n (N.of_nat j)
    (λ i '(recordIds, index),
       if isActive (record_at s0 a i)
       then
         (recordIds' ← array_store recordIds index (recordId (record_at s0 a i));
          index' ← checked_inc index;
          mret (recordIds', index'))
       else mret (recordIds, index))
    (pre ++ replicate k EmptyString, N.of_nat (length pre)) s
  = Ok ((pre ++ List.map recordId (List.filter isActive (window s0 a j n))
             ++ replicate (k - length (List.filter isActive (window s0 a j n))) EmptyString,
         N.of_nat (length pre + length (List.filter isActive (window s0 a j n)))),
        s, []).
Proof.
  induction n as [|n IH]; intros j pre k s Hj Hk Hfit.
  - cbn. rewrite Nat.sub_0_r, Nat.add_0_r. reflexivity.
  - cbn [for_upto]. rewrite window_S in *. cbn [List.filter] in *.
    assert (Hi : (N.of_nat j <? MAX_UINT256) = true) by (apply N.ltb_lt; lia).
    destruct (isActive (record_at s0 a (N.of_nat j))) eqn:Eact.
    + cbn [length] in Hfit. destruct k as [|k]; [lia|].
      assert (Hidx : (N.of_nat (length pre) <? MAX_UINT256) = true)
        by (apply N.ltb_lt; lia).
      assert (Hin : (N.of_nat (length pre)
                       <? N.of_nat (length (pre ++ replicate (S k) EmptyString))) = true).
      { apply N.ltb_lt. rewrite length_app, length_replicate. lia. }
      unfold array_store. unfold_monad. rewrite Hin, Hidx, Hi. cbv beta iota.
      rewrite Nat2N.id.
      replace (<[length pre := recordId (record_at s0 a (N.of_nat j))]>
                 (pre ++ replicate (S k) EmptyString))
        with ((pre ++ [recordId (record_at s0 a (N.of_nat j))])
                ++ replicate k EmptyString).
      2:{ rewrite <- (Nat.add_0_r (length pre)) at 1.
          rewrite insert_app_r. cbn. rewrite <- app_assoc. reflexivity. }
      replace (N.of_nat (length pre) + 1)
        with (N.of_nat (length (pre ++ [recordId (record_at s0 a (N.of_nat j))])))
        by (rewrite length_app; cbn; lia).
      replace (N.of_nat j + 1) with (N.of_nat (S j)) by lia.
      rewrite IH; [| lia | rewrite length_app; cbn; lia | lia].
      cbn [List.map length app]. rewrite <- app_assoc. cbn [app].
      rewrite length_app. cbn [length].
      replace (S k - S (length (List.filter isActive (window s0 a (S j) n))))%nat
        with (k - length (List.filter isActive (window s0 a (S j) n)))%nat by lia.
      do 4 f_equal. lia.
    + unfold_monad. rewrite Hi. cbv beta iota.
      replace (N.of_nat j + 1) with (N.of_nat (S j)) by lia.
      rewrite IH by lia. reflexivity.
Qed.

End RecordIdsLoops.

Lemma window_records_of s a :
  window s a 0 (N.to_nat (count_of s a)) = records_of s a.
Proof. reflexivity. Qed.

Lemma filter_length_le {A} (f : A → bool) (l : list A) :
  (length (List.filter f l) ≤ length l)%nat.
Proof.
  induction l as [|x l IH]; cbn; [lia|]. destruct (f x); cbn; lia.
Qed.

Lemma records_of_length s a : length (records_of s a) = N.to_nat (count_of s a).
Proof. unfold records_of. rewrite length_map, length_seq. reflexivity. Qed.

Lemma bind_Ok {A B} (m : M A) (k : A → M B) s a s1 e1 :
  m s = Ok (a, s1, e1) →
  (m ≫= k) s = match k a s1 with
               | Ok (b, s2, e2) => Ok (b, s2, e1 ++ e2)
               | Fail f => Fail f
               end.
Proof. intros H. unfold mbind, M_bind. rewrite H. reflexivity. Qed.

Lemma bind_Fail {A B} (m : M A) (k : A → M B) s f :
  m s = Fail f → (m ≫= k) s = Fail f.
Proof. intros H. unfold mbind, M_bind. rewrite H. reflexivity. Qed.

Lemma onlyPatientOrOwner_eq msg a s :
  onlyPatientOrOwner msg a s =
    if (msg_sender msg =? a) || (msg_sender msg =? owner s)
    then Ok (tt, s, [])
    else Fail (Revert ERR_PATIENT_OR_OWNER).
Proof.
  unfold_body. destruct ((msg_sender msg =? a) || (msg_sender msg =? owner s));
    reflexivity.
Qed.

Lemma getPatientRecordIds_eq msg a s :
  count_of s a ≤ MAX_UINT256 →
  getPatientRecordIds msg a s =
    if (msg_sender msg =? a) || (msg_sender msg =? owner s)
    then Ok (active_ids s a, s, [])
    else Fail (Revert ERR_PATIENT_OR_OWNER).
Proof.
  intros Hc. unfold getPatientRecordIds.
  pose proof (onlyPatientOrOwner_eq msg a s) as Hgate.
  destruct ((msg_sender msg =? a) || (msg_sender msg =? owner s));
    [|apply bind_Fail, Hgate].
  pose proof (filter_length_le isActive (records_of s a)) as Hle.
  rewrite records_of_length in Hle.
  erewrite bind_Ok by exact Hgate.
  erewrite bind_Ok by reflexivity. cbv zeta.
  erewrite bind_Ok
    by (apply (first_pass s a _ 0%nat 0 s); cbn [Nat.add]; lia).
  rewrite window_records_of, N.add_0_l, Nat2N.id.
  erewrite bind_Ok
    by (apply (second_pass s a _ 0%nat [] _ s);
        [ cbn [Nat.add]; lia | cbn [length Nat.add]; lia
        | rewrite window_records_of; lia ]).
  rewrite window_records_of, Nat.sub_diag. cbn [replicate app].
  rewrite app_nil_r. reflexivity.
Qed.

Lemma getMedicalRecord_eq msg a i s :
  getMedicalRecord msg a i s =
    if (msg_sender msg =? a) || (msg_sender msg =? owner s)
    then if i <? count_of s a
         then Ok (record_at s a i, s, [])
         else Fail (Revert ERR_INVALID_INDEX)
    else Fail (Revert ERR_PATIENT_OR_OWNER).
Proof.
  unfold getMedicalRecord; unfold_body.
  destruct ((msg_sender msg =? a) || (msg_sender msg =? owner s)); [|reflexivity].
  destruct (i <? count_of s a); reflexivity.
Qed.

(** ** What a transaction can commit *)

Lemma execute_bind_ret {A} (m : M A) (v : A → RetVal) s :
  match (m ≫= λ a, mret (v a)) s with
  | Ok (r, s', evs) => (s', Ok (r, evs))
  | Fail f => (s, Fail f)
  end
  = match m s with
    | Ok (a, s', evs) => (s', Ok (v a, evs))
    | Fail f => (s, Fail f)
    end.
Proof.
  unfold mbind, M_bind, mret, M_mret.
  destruct (m s) as [[[a s1] e1]|]; [|reflexivity].
  rewrite app_nil_r. reflexivity.
Qed.

Lemma execute_read_only {A} (m : M A) (v : A → RetVal) s msg c :
  dispatch msg c = (m ≫= λ a, mret (v a)) →
  read_only m →
  fst (execute s msg c) = s.
Proof.
  intros Hd Hr. unfold execute. rewrite Hd, execute_bind_ret.
  destruct (m s) as [[[a s1] e1]|] eqn:E; [|reflexivity].
  apply Hr in E. exact E.
Qed.

Lemma execute_view s msg c : is_view c = true → fst (execute s msg c) = s.
Proof.
  destruct c; intros Hv; try discriminate Hv;
    (eapply execute_read_only; [reflexivity|]);
    first [ apply getMedicalRecord_read_only
          | apply getPatientRecordIds_read_only
          | unfold getPatientRecordCount, isPatientAuthorized, getTotalRecords,
              getMyRecordCount, amIAuthorized; solve [read_only_tac] ].
Qed.

Lemma execute_commits s msg c : commits s msg (fst (execute s msg c)).
Proof.
  destruct c as [a|a|a|id h t m|i h m|i|a i|a|a|a| |a| | ];
    try (rewrite execute_view by reflexivity; apply commits_nothing);
    unfold execute, dispatch;
    first [ rewrite (execute_bind_ret _ VBool)
          | rewrite (execute_bind_ret _ (λ _, VUnit)) ].
  - rewrite setPatientRegistryContract_eq.
    destruct (msg_sender msg =? owner s); constructor.
  - rewrite authorizePatient_eq.
    destruct (msg_sender msg =? owner s); [|constructor].
    destruct (a =? zero_address); constructor.
  - rewrite deauthorizePatient_eq.
    destruct (msg_sender msg =? owner s); constructor.
  - rewrite addMedicalRecord_eq.
    destruct (passes_gate s (msg_sender msg)) eqn:Hg; [|constructor].
    destruct (nonempty id) eqn:Hid; [|constructor].
    destruct (nonempty h) eqn:Hh; [|constructor].
    destruct (id_used s id) eqn:Hu; [constructor|].
    destruct (count_of s (msg_sender msg) <? MAX_UINT256) eqn:Hc; [|constructor].
    destruct (totalRecordsStored s <? MAX_UINT256) eqn:Ht; [|constructor].
    apply N.ltb_lt in Hc, Ht. cbn [fst]. by constructor.
  - rewrite updateMedicalRecord_eq.
    destruct (passes_gate s (msg_sender msg)); [|constructor].
    destruct (i <? count_of s (msg_sender msg)) eqn:Hi; [|constructor].
    destruct (isActive (record_at s (msg_sender msg) i)) eqn:Ha; [|constructor].
    destruct (nonempty h); [|constructor].
    apply N.ltb_lt in Hi. cbn [fst]. by constructor.
  - rewrite deactivateMedicalRecord_eq.
    destruct (passes_gate s (msg_sender msg)); [|constructor].
    destruct (i <? count_of s (msg_sender msg)) eqn:Hi; [|constructor].
    destruct (isActive (record_at s (msg_sender msg) i)) eqn:Ha; [|constructor].
    apply N.ltb_lt in Hi. cbn [fst]. by constructor.
  - rewrite transferOwnership_eq.
    destruct (msg_sender msg =? owner s) eqn:Ho; [|constructor].
    destruct (a =? zero_address) eqn:Hz; [constructor|].
    apply N.eqb_eq in Ho. apply N.eqb_neq in Hz. cbn [fst]. by constructor.
Qed.

(** ** Reading the committed storage *)

Lemma record_at_add_post msg id h t m s b j :
  record_at (add_post msg id h t m s) b j =
    if decide ((msg_sender msg, count_of s (msg_sender msg)) = (b, j))
    then mkMedicalRecord id h t (block_timestamp msg) (msg_sender msg) true m
    else record_at s b j.
Proof.
  unfold record_at, add_post. cbn [patientRecords].
  rewrite lookup_insert. destruct (decide _); reflexivity.
Qed.

Lemma count_of_add_post msg id h t m s b :
  count_of (add_post msg id h t m s) b =
    if decide (msg_sender msg = b) then count_of s b + 1 else count_of s b.
Proof.
  unfold count_of, add_post. cbn [patientRecordCount].
  rewrite lookup_insert. destruct (decide _) as [->|]; reflexivity.
Qed.

Lemma id_used_add_post msg id h t m s x :
  id_used (add_post msg id h t m s) x =
    if decide (id = x) then true else id_used s x.
Proof.
  unfold id_used, add_post. cbn [recordIdExists].
  rewrite lookup_insert. destruct (decide _); reflexivity.
Qed.

Lemma record_at_update_post msg i h m s b j :
  record_at (update_post msg i h m s) b j =
    if decide ((msg_sender msg, i) = (b, j))
    then with_metadata m (with_encryptedDataHash h (record_at s b j))
    else record_at s b j.
Proof.
  unfold record_at, update_post. cbn [patientRecords set_patientRecords].
  rewrite lookup_insert. destruct (decide _) as [[= -> ->]|]; reflexivity.
Qed.

Lemma record_at_deactivate_post msg i s b j :
  record_at (deactivate_post msg i s) b j =
    if decide ((msg_sender msg, i) = (b, j))
    then with_isActive false (record_at s b j)
    else record_at s b j.
Proof.
  unfold record_at, deactivate_post. cbn [patientRecords set_patientRecords].
  rewrite lookup_insert. destruct (decide _) as [[= -> ->]|]; reflexivity.
Qed.

Lemma recordId_update_post msg i h m s b j :
  recordId (record_at (update_post msg i h m s) b j) = recordId (record_at s b j).
Proof. rewrite record_at_update_post. destruct (decide _); reflexivity. Qed.

Lemma recordId_deactivate_post msg i s b j :
  recordId (record_at (deactivate_post msg i s) b j) = recordId (record_at s b j).
Proof. rewrite record_at_deactivate_post. destruct (decide _); reflexivity. Qed.

(** ** The sum of the per-address counts *)

Lemma sum_counts_comm (j1 j2 z1 z2 y : N) : z1 + (z2 + y) = z2 + (z1 + y).
Proof. lia. Qed.

Lemma sum_counts_insert (m : gmap N N) (a n : N) :
  map_fold (λ _ n acc, n + acc) 0 (<[a := n]> m) + default 0 (m !! a)
  = map_fold (λ _ n acc, n + acc) 0 m + n.
Proof.
  destruct (m !! a) as [x|] eqn:E; cbn [default from_option id].
  - rewrite <- (insert_delete_eq m a n).
    rewrite (map_fold_insert_L _ _ a n (delete a m));
      [| intros; apply sum_counts_comm; assumption | apply lookup_delete_eq].
    rewrite (map_fold_delete_L _ _ a x m);
      [| intros; apply sum_counts_comm; assumption | exact E].
    lia.
  - rewrite (map_fold_insert_L _ _ a n m);
      [| intros; apply sum_counts_comm; assumption | exact E].
    lia.
Qed.

Lemma sum_counts_add_post msg id h t m s :
  sum_counts (add_post msg id h t m s) = sum_counts s + 1.
Proof.
  unfold sum_counts, add_post. cbn [patientRecordCount].
  pose proof (sum_counts_insert (patientRecordCount s) (msg_sender msg)
                (count_of s (msg_sender msg) + 1)) as H.
  unfold count_of in *. lia.
Qed.

Lemma count_of_le_sum s a : count_of s a ≤ sum_counts s.
Proof.
  unfold count_of, sum_counts.
  destruct (patientRecordCount s !! a) as [x|] eqn:E; cbn [default from_option id]; [|lia].
  rewrite (map_fold_delete_L _ _ a x (patientRecordCount s));
    [| intros; apply sum_counts_comm; assumption | exact E].
  lia.
Qed.

(** ** The ledger invariant *)

Lemma ledger_inv_constructor deploy : ledger_inv (constructor deploy).
Proof.
  split; unfold count_of, id_used, constructor; cbn.
  - intros a i H. rewrite lookup_empty in H. cbn in H. lia.
  - intros a i H. rewrite lookup_empty in H. cbn in H. lia.
  - intros id H. rewrite lookup_empty in H. discriminate.
  - intros a i b j H. rewrite lookup_empty in H. cbn in H. lia.
  - reflexivity.
  - unfold MAX_UINT256. lia.
Qed.

Lemma add_post_old_slot msg id h t m s a i :
  i < count_of (add_post msg id h t m s) a →
  (msg_sender msg, count_of s (msg_sender msg)) ≠ (a, i) →
  i < count_of s a.
Proof.
  rewrite count_of_add_post. destruct (decide _) as [->|]; [|tauto].
  intros Hlt Hne.
  assert (i ≠ count_of s a) by congruence. lia.
Qed.

Lemma add_post_keeps_slot msg id h t m s a i :
  i < count_of s a →
  i < count_of (add_post msg id h t m s) a ∧
  record_at (add_post msg id h t m s) a i = record_at s a i.
Proof.
  intros Hlt. rewrite count_of_add_post, record_at_add_post. split.
  - destruct (decide _); lia.
  - destruct (decide _) as [[= <- <-]|]; [lia|reflexivity].
Qed.

Lemma ledger_inv_add_post msg id h t m s :
  ledger_inv s →
  nonempty id = true →
  id_used s id = false →
  totalRecordsStored s < MAX_UINT256 →
  ledger_inv (add_post msg id h t m s).
Proof.
  intros [Hne Hmk Hbk Hun Htot Hbd] Hid Hfresh Hroom. split.
  - intros a i Hlt. rewrite record_at_add_post.
    destruct (decide _) as [|Hslot]; [exact Hid|].
    apply Hne. eapply add_post_old_slot; eassumption.
  - intros a i Hlt. rewrite record_at_add_post, id_used_add_post.
    destruct (decide (_ = (a, i))) as [|Hslot]; cbn [recordId].
    + destruct (decide _); [reflexivity|congruence].
    + destruct (decide _); [reflexivity|].
      apply Hmk. eapply add_post_old_slot; eassumption.
  - intros x Hx. rewrite id_used_add_post in Hx.
    destruct (decide (id = x)) as [<-|].
    + exists (msg_sender msg), (count_of s (msg_sender msg)).
      rewrite count_of_add_post, record_at_add_post.
      rewrite !decide_True by reflexivity. split; [lia|reflexivity].
    + destruct (Hbk x Hx) as (a & i & Hlt & Hrid).
      exists a, i.
      destruct (add_post_keeps_slot msg id h t m s a i Hlt) as [Hlt' ->].
      split; assumption.
  - intros a i b j Ha Hb. rewrite !record_at_add_post.
    destruct (decide (_ = (a, i))) as [Ea|Na];
      destruct (decide (_ = (b, j))) as [Eb|Nb]; cbn [recordId]; intros Hrid.
    + split; congruence.
    + pose proof (Hmk b j (add_post_old_slot _ _ _ _ _ _ _ _ Hb Nb)) as Hused.
      congruence.
    + pose proof (Hmk a i (add_post_old_slot _ _ _ _ _ _ _ _ Ha Na)) as Hused.
      congruence.
    + apply Hun; [eapply add_post_old_slot; eassumption ..|exact Hrid].
  - rewrite sum_counts_add_post. cbn [add_post totalRecordsStored]. lia.
  - cbn [add_post totalRecordsStored]. lia.
Qed.

Lemma ledger_inv_update_post msg i h m s :
  ledger_inv s → ledger_inv (update_post msg i h m s).
Proof.
  intros [Hne Hmk Hbk Hun Htot Hbd]. split.
  - intros a j Hlt. rewrite recordId_update_post. by apply Hne.
  - intros a j Hlt. rewrite recordId_update_post. by apply Hmk.
  - intros x Hx. destruct (Hbk x Hx) as (a & j & Hlt & Hrid).
    exists a, j. rewrite recordId_update_post. by split.
  - intros a j b k Ha Hb. rewrite !recordId_update_post. by apply Hun.
  - exact Htot.
  - exact Hbd.
Qed.

Lemma ledger_inv_deactivate_post msg i s :
  ledger_inv s → ledger_inv (deactivate_post msg i s).
Proof.
  intros [Hne Hmk Hbk Hun Htot Hbd]. split.
  - intros a j Hlt. rewrite recordId_deactivate_post. by apply Hne.
  - intros a j Hlt. rewrite recordId_deactivate_post. by apply Hmk.
  - intros x Hx. destruct (Hbk x Hx) as (a & j & Hlt & Hrid).
    exists a, j. rewrite recordId_deactivate_post. by split.
  - intros a j b k Ha Hb. rewrite !recordId_deactivate_post. by apply Hun.
  - exact Htot.
  - exact Hbd.
Qed.

Lemma ledger_inv_commits s msg s' :
  commits s msg s' → ledger_inv s → ledger_inv s'.
Proof.
  intros Hc Hinv. destruct Hc.
  - exact Hinv.
  - destruct Hinv; by split.
  - destruct Hinv; by split.
  - destruct Hinv; by split.
  - by apply ledger_inv_add_post.
  - by apply ledger_inv_update_post.
  - by apply ledger_inv_deactivate_post.
Qed.

Lemma ledger_inv_run tr : ∀ s, ledger_inv s → ledger_inv (run s tr).
Proof.
  induction tr as [|[msg c] tr IH]; intros s Hinv; cbn [run]; [exact Hinv|].
  apply IH. eapply ledger_inv_commits; [apply execute_commits|exact Hinv].
Qed.

Lemma ledger_inv_reachable s : reachable s → ledger_inv s.
Proof.
  intros (deploy & tr & ->). apply ledger_inv_run, ledger_inv_constructor.
Qed.

Lemma reachable_step s msg c : reachable s → reachable (fst (execute s msg c)).
Proof.
  intros (deploy & tr & ->). exists deploy, (tr ++ [(msg, c)]).
  generalize (constructor deploy). induction tr as [|[m0 c0] tr IH]; intros s0.
  - reflexivity.
  - cbn [run app]. apply IH.
Qed.

(** ** Transactions, call by call *)

Lemma execute_addMedicalRecord s msg id h t m :
  execute s msg (AddMedicalRecord id h t m) =
    match addMedicalRecord msg id h t m s with
    | Ok (b, s', evs) => (s', Ok (VBool b, evs))
    | Fail f => (s, Fail f)
    end.
Proof. apply (execute_bind_ret _ VBool). Qed.

Lemma execute_updateMedicalRecord s msg i h m :
  execute s msg (UpdateMedicalRecord i h m) =
    match updateMedicalRecord msg i h m s with
    | Ok (b, s', evs) => (s', Ok (VBool b, evs))
    | Fail f => (s, Fail f)
    end.
Proof. apply (execute_bind_ret _ VBool). Qed.

Lemma execute_deactivateMedicalRecord s msg i :
  execute s msg (DeactivateMedicalRecord i) =
    match deactivateMedicalRecord msg i s with
    | Ok (b, s', evs) => (s', Ok (VBool b, evs))
    | Fail f => (s, Fail f)
    end.
Proof. apply (execute_bind_ret _ VBool). Qed.

Lemma execute_authorizePatient s msg a :
  execute s msg (AuthorizePatient a) =
    match authorizePatient msg a s with
    | Ok (b, s', evs) => (s', Ok (VBool b, evs))
    | Fail f => (s, Fail f)
    end.
Proof. apply (execute_bind_ret _ VBool). Qed.

Lemma execute_transferOwnership s msg a :
  execute s msg (TransferOwnership a) =
    match transferOwnership msg a s with
    | Ok (_, s', evs) => (s', Ok (VUnit, evs))
    | Fail f => (s, Fail f)
    end.
Proof. apply (execute_bind_ret _ (λ _, VUnit)). Qed.

Lemma execute_getPatientRecordIds s msg a :
  execute s msg (GetPatientRecordIds a) =
    match getPatientRecordIds msg a s with
    | Ok (l, s', evs) => (s', Ok (VStrings l, evs))
    | Fail f => (s, Fail f)
    end.
Proof. apply (execute_bind_ret _ VStrings). Qed.

Lemma execute_amIAuthorized s msg :
  execute s msg AmIAuthorized = (s, Ok (VBool (authorized s (msg_sender msg)), [])).
Proof. reflexivity. Qed.

(** ** Supporting facts about histories *)

Lemma fresh_id_unused s id :
  ledger_inv s →
  (∀ a i, i < count_of s a → recordId (record_at s a i) ≠ id) →
  id_used s id = false.
Proof.
  intros Hinv Hfresh. destruct (id_used s id) eqn:E; [|reflexivity].
  destruct (inv_backed s Hinv id E) as (a & i & Hlt & Hrid).
  exfalso. exact (Hfresh a i Hlt Hrid).
Qed.

Lemma unused_id_fresh s id :
  ledger_inv s →
  id_used s id = false →
  ∀ a i, i < count_of s a → recordId (record_at s a i) ≠ id.
Proof.
  intros Hinv Hun a i Hlt Hrid.
  pose proof (inv_marked s Hinv a i Hlt) as Hm. congruence.
Qed.

Lemma add_succeeds s msg id h t m :
  passes_gate s (msg_sender msg) = true →
  nonempty id = true →
  nonempty h = true →
  id_used s id = false →
  count_of s (msg_sender msg) < MAX_UINT256 →
  totalRecordsStored s < MAX_UINT256 →
  execute s msg (AddMedicalRecord id h t m) =
    (add_post msg id h t m s,
     Ok (VBool true,
         [MedicalRecordAdded (msg_sender msg) id t (block_timestamp msg)
            (msg_sender msg)])).
Proof.
  intros Hg Hid Hh Hu Hc Ht.
  rewrite execute_addMedicalRecord, addMedicalRecord_eq, Hg, Hid, Hh, Hu.
  apply N.ltb_lt in Hc, Ht. rewrite Hc, Ht. reflexivity.
Qed.

Lemma commits_total s msg s' :
  commits s msg s' →
  totalRecordsStored s ≤ totalRecordsStored s' ≤ totalRecordsStored s + 1.
Proof. intros Hc. destruct Hc; cbn; lia. Qed.

(** After [n] transactions at most [n] records are stored, so the checked
    counters have room as long as fewer than [2^256 - 1] transactions ran. *)
Lemma total_le_history tr : ∀ s,
  totalRecordsStored (run s tr) ≤ totalRecordsStored s + N.of_nat (length tr).
Proof.
  induction tr as [|[msg c] tr IH]; intros s; cbn [run length]; [lia|].
  pose proof (commits_total _ _ _ (execute_commits s msg c)).
  pose proof (IH (fst (execute s msg c))). lia.
Qed.

Lemma commits_count s msg s' a :
  commits s msg s' → count_of s a ≤ count_of s' a.
Proof.
  intros Hc. destruct Hc; try apply N.le_refl.
  rewrite count_of_add_post. destruct (decide _); lia.
Qed.

Lemma commits_inactive s msg s' a i :
  commits s msg s' →
  i < count_of s a →
  isActive (record_at s a i) = false →
  i < count_of s' a ∧ isActive (record_at s' a i) = false.
Proof.
  intros Hc Hlt Hoff. destruct Hc; try (split; assumption).
  - destruct (add_post_keeps_slot msg id h t m s a i Hlt) as [Hlt' ->].
    split; assumption.
  - split; [exact Hlt|]. rewrite record_at_update_post.
    destruct (decide _); [exact Hoff|exact Hoff].
  - split; [exact Hlt|]. rewrite record_at_deactivate_post.
    destruct (decide _); [reflexivity|exact Hoff].
Qed.

Lemma execute_count s msg c a :
  count_of (fst (execute s msg c)) a =
    count_of s a +
    match c, snd (execute s msg c) with
    | AddMedicalRecord _ _ _ _, Ok _ => if msg_sender msg =? a then 1 else 0
    | _, _ => 0
    end.
Proof.
  destruct c as [r|p|p|id h t m|i h m|i|p i|p|p|p| |p| | ];
    cbv beta iota; rewrite ?N.add_0_r;
    try (rewrite execute_view by reflexivity; reflexivity).
  - unfold execute, dispatch.
    rewrite (execute_bind_ret _ (λ _, VUnit)), setPatientRegistryContract_eq.
    destruct (msg_sender msg =? owner s); reflexivity.
  - rewrite execute_authorizePatient, authorizePatient_eq.
    destruct (msg_sender msg =? owner s); [|reflexivity].
    destruct (p =? zero_address); reflexivity.
  - unfold execute, dispatch.
    rewrite (execute_bind_ret _ VBool), deauthorizePatient_eq.
    destruct (msg_sender msg =? owner s); reflexivity.
  - rewrite execute_addMedicalRecord, addMedicalRecord_eq.
    destruct (passes_gate s (msg_sender msg)); [|cbn; lia].
    destruct (nonempty id); [|cbn; lia].
    destruct (nonempty h); [|cbn; lia].
    destruct (id_used s id); [cbn; lia|].
    destruct (count_of s (msg_sender msg) <? MAX_UINT256); [|cbn; lia].
    destruct (totalRecordsStored s <? MAX_UINT256); [|cbn; lia].
    cbn [fst snd]. rewrite count_of_add_post.
    destruct (decide (msg_sender msg = a)) as [->|Hne].
    + rewrite N.eqb_refl. reflexivity.
    + apply N.eqb_neq in Hne. rewrite Hne. lia.
  - rewrite execute_updateMedicalRecord, updateMedicalRecord_eq.
    destruct (passes_gate s (msg_sender msg)); [|reflexivity].
    destruct (i <? count_of s (msg_sender msg)); [|reflexivity].
    destruct (isActive (record_at s (msg_sender msg) i)); [|reflexivity].
    destruct (nonempty h); reflexivity.
  - rewrite execute_deactivateMedicalRecord, deactivateMedicalRecord_eq.
    destruct (passes_gate s (msg_sender msg)); [|reflexivity].
    destruct (i <? count_of s (msg_sender msg)); [|reflexivity].
    destruct (isActive (record_at s (msg_sender msg) i)); reflexivity.
  - rewrite execute_transferOwnership, transferOwnership_eq.
    destruct (msg_sender msg =? owner s); [|reflexivity].
    destruct (p =? zero_address); reflexivity.
Qed.

Lemma run_count tr : ∀ s a,
  count_of (run s tr) a = count_of s a + successful_adds a s tr.
Proof.
  induction tr as [|[msg c] tr IH]; intros s a; cbn [run successful_adds].
  - lia.
  - rewrite IH, execute_count. lia.
Qed.

Lemma run_inactive tr : ∀ s a i,
  i < count_of s a →
  isActive (record_at s a i) = false →
  i < count_of (run s tr) a ∧ isActive (record_at (run s tr) a i) = false.
Proof.
  induction tr as [|[msg c] tr IH]; intros s a i Hlt Hoff; cbn [run].
  - split; assumption.
  - destruct (commits_inactive _ _ _ a i (execute_commits s msg c) Hlt Hoff).
    by apply IH.
Qed.

(** * Properties of the ledger *)

Lemma example_state_reachable : reachable example_state.
Proof. exists (mkMsg alice 99), example_history. reflexivity. Defined.

(** C1 — Global record-id uniqueness.  In every reachable state two
    stored records (index below the count of their address) with the same
    [recordId] are the same record.  [addMedicalRecord] with the id of a
    record stored under any address fails and commits nothing; once the
    caller passes the gate and the data hash is not empty the failure is
    ["Record ID already exists"] (the specification's [AlreadyExists]).
    With an id that no stored record uses, non-empty arguments and a caller
    that passes the gate, the call returns [true], provided the checked
    counter [totalRecordsStored] is below [2^256 - 1]. *)
Theorem C1_record_id_uniqueness (s : State) :
  reachable s →
  (∀ a i b j,
     i < count_of s a → j < count_of s b →
     recordId (record_at s a i) = recordId (record_at s b j) →
     a = b ∧ i = j)
  ∧ (∀ msg a i h t m,
       i < count_of s a →
       (∃ f, execute s msg (AddMedicalRecord (recordId (record_at s a i)) h t m)
             = (s, Fail f))
       ∧ (passes_gate s (msg_sender msg) = true →
          nonempty h = true →
          execute s msg (AddMedicalRecord (recordId (record_at s a i)) h t m)
          = (s, Fail (Revert ERR_ID_EXISTS))))
  ∧ error_kind (Revert ERR_ID_EXISTS) = Some AlreadyExists
  ∧ (∀ msg id h t m,
       passes_gate s (msg_sender msg) = true →
       nonempty id = true →
       nonempty h = true →
       (∀ a i, i < count_of s a → recordId (record_at s a i) ≠ id) →
       totalRecordsStored s < MAX_UINT256 →
       ∃ evs, execute s msg (AddMedicalRecord id h t m)
              = (add_post msg id h t m s, Ok (VBool true, evs))).
Proof.
  intros Hr. pose proof (ledger_inv_reachable s Hr) as Hinv.
  split; [exact (inv_unique s Hinv)|].
  split; [|split; [reflexivity|]].
  - intros msg a i h t m Hlt.
    pose proof (inv_nonempty s Hinv a i Hlt) as Hne.
    pose proof (inv_marked s Hinv a i Hlt) as Hmk.
    rewrite execute_addMedicalRecord, addMedicalRecord_eq, Hne, Hmk. split.
    + destruct (passes_gate s (msg_sender msg)); [|eauto].
      destruct (nonempty h); eauto.
    + intros -> ->. reflexivity.
  - intros msg id h t m Hg Hid Hh Hfresh Hroom. eexists.
    apply add_succeeds; try assumption.
    + by apply fresh_id_unused.
    + pose proof (count_of_le_sum s (msg_sender msg)).
      pose proof (inv_total s Hinv). lia.
Qed.

Lemma C1_witness :
  execute example_state (mkMsg alice 200) (AddMedicalRecord "r2" "0xff" "lab" "{}")
  = (example_state, Fail (Revert ERR_ID_EXISTS))
  ∧ ∃ evs,
      execute example_state (mkMsg alice 200) (AddMedicalRecord "r9" "0xff" "lab" "{}")
      = (add_post (mkMsg alice 200) "r9" "0xff" "lab" "{}" example_state,
         Ok (VBool true, evs)).
Proof.
  destruct (C1_record_id_uniqueness example_state example_state_reachable)
    as (_ & Hdup & _ & Hfresh).
  split.
  - apply (Hdup (mkMsg alice 200) bob 1 "0xff" "lab" "{}");
      vm_compute; reflexivity.
  - apply Hfresh; try (vm_compute; reflexivity).
    apply unused_id_fresh;
      [apply ledger_inv_reachable, example_state_reachable
      | vm_compute; reflexivity].
Defined.

(** C2 — Success postcondition of [addMedicalRecord].  In a reachable
    state, for a caller that passes the gate, a non-empty id that no stored
    record uses and a non-empty data hash, the call returns [true] (the
    checked counter [totalRecordsStored] being below [2^256 - 1]); the new
    record sits at index [count_of s caller] with [isActive = true],
    [uploadedBy = caller], [timestamp = block.timestamp]; the id is marked
    used; the caller's count and the global total each grow by exactly one;
    other counts and the records already stored are untouched. *)
Theorem C2_add_record_postcondition (s : State) (msg : Msg) (id h t m : string) :
  reachable s →
  passes_gate s (msg_sender msg) = true →
  nonempty id = true →
  nonempty h = true →
  (∀ a i, i < count_of s a → recordId (record_at s a i) ≠ id) →
  totalRecordsStored s < MAX_UINT256 →
  ∃ s',
    execute s msg (AddMedicalRecord id h t m)
    = (s', Ok (VBool true,
               [MedicalRecordAdded (msg_sender msg) id t (block_timestamp msg)
                  (msg_sender msg)]))
    ∧ record_at s' (msg_sender msg) (count_of s (msg_sender msg))
      = mkMedicalRecord id h t (block_timestamp msg) (msg_sender msg) true m
    ∧ id_used s' id = true
    ∧ count_of s' (msg_sender msg) = count_of s (msg_sender msg) + 1
    ∧ totalRecordsStored s' = totalRecordsStored s + 1
    ∧ (∀ b, b ≠ msg_sender msg → count_of s' b = count_of s b)
    ∧ (∀ b j, j < count_of s b → record_at s' b j = record_at s b j).
Proof.
  intros Hr Hg Hid Hh Hfresh Hroom.
  pose proof (ledger_inv_reachable s Hr) as Hinv.
  exists (add_post msg id h t m s). split; [|repeat split].
  - apply add_succeeds; try assumption.
    + by apply fresh_id_unused.
    + pose proof (count_of_le_sum s (msg_sender msg)).
      pose proof (inv_total s Hinv). lia.
  - rewrite record_at_add_post, decide_True by reflexivity. reflexivity.
  - rewrite id_used_add_post, decide_True by reflexivity. reflexivity.
  - rewrite count_of_add_post, decide_True by reflexivity. reflexivity.
  - intros b Hb. rewrite count_of_add_post, decide_False by congruence.
    reflexivity.
  - intros b j Hlt. by apply add_post_keeps_slot.
Qed.

Lemma C2_witness :
  ∃ s',
    execute example_state (mkMsg bob 200) (AddMedicalRecord "r4" "0xa4" "lab" "{}")
    = (s', Ok (VBool true, [MedicalRecordAdded bob "r4" "lab" 200 bob]))
    ∧ record_at s' bob 3 = mkMedicalRecord "r4" "0xa4" "lab" 200 bob true "{}"
    ∧ count_of s' bob = 4
    ∧ totalRecordsStored s' = 4.
Proof.
  destruct (C2_add_record_postcondition example_state (mkMsg bob 200)
              "r4" "0xa4" "lab" "{}" example_state_reachable)
    as (s' & Hex & Hrec & _ & Hcnt & Htot & _); try (vm_compute; reflexivity).
  - apply unused_id_fresh;
      [apply ledger_inv_reachable, example_state_reachable
      | vm_compute; reflexivity].
  - exists s'. repeat split; [exact Hex|exact Hrec|exact Hcnt|exact Htot].
Defined.

(** C3 — Deactivation is one-way.  A stored record whose [isActive] is
    [false] keeps [isActive = false] (and stays stored) through every
    history of transactions; [deactivateMedicalRecord] on it by its address
    (passing the gate) fails with ["Record already inactive"] (the
    specification's [InvalidState]) and commits nothing. *)
Theorem C3_deactivation_one_way (s : State) (a i : N) :
  i < count_of s a →
  isActive (record_at s a i) = false →
  (∀ tr, i < count_of (run s tr) a ∧ isActive (record_at (run s tr) a i) = false)
  ∧ (∀ msg,
       msg_sender msg = a →
       passes_gate s a = true →
       execute s msg (DeactivateMedicalRecord i)
       = (s, Fail (Revert ERR_ALREADY_INACTIVE))
       ∧ isActive (record_at (fst (execute s msg (DeactivateMedicalRecord i))) a i)
         = false)
  ∧ error_kind (Revert ERR_ALREADY_INACTIVE) = Some InvalidState.
Proof.
  intros Hlt Hoff. split; [|split; [|reflexivity]].
  - intros tr. by apply run_inactive.
  - intros msg <- Hg.
    rewrite execute_deactivateMedicalRecord, deactivateMedicalRecord_eq, Hg.
    apply N.ltb_lt in Hlt. rewrite Hlt, Hoff. split; [reflexivity|exact Hoff].
Qed.

Lemma C3_witness :
  isActive (record_at
              (run example_state
                 [ (mkMsg bob 200, UpdateMedicalRecord 1 "0xbb" "{}");
                   (mkMsg bob 201, AddMedicalRecord "r4" "0xa4" "lab" "{}");
                   (mkMsg bob 202, DeactivateMedicalRecord 1) ])
              bob 1) = false
  ∧ execute example_state (mkMsg bob 200) (DeactivateMedicalRecord 1)
    = (example_state, Fail (Revert ERR_ALREADY_INACTIVE)).
Proof.
  assert (Hlt : 1 < count_of example_state bob) by (vm_compute; reflexivity).
  assert (Hoff : isActive (record_at example_state bob 1) = false)
    by (vm_compute; reflexivity).
  destruct (C3_deactivation_one_way example_state bob 1 Hlt Hoff)
    as (Hrun & Hagain & _).
  split.
  - apply Hrun.
  - apply (Hagain (mkMsg bob 200)); vm_compute; reflexivity.
Defined.

(** C4 — Frame of [updateMedicalRecord].  When the call returns, the
    committed storage is the old one with the targeted slot replaced: its
    [encryptedDataHash] and [metadata] are the arguments, its [timestamp],
    [recordId], [recordType], [uploadedBy] and [isActive] are as before;
    every other record, the counts, the id set, the authorization set, the
    owner, the registry link and the total are unchanged. *)
Theorem C4_update_frame (s s' : State) (msg : Msg) (i : N) (h m : string)
    (out : RetVal * list Event) :
  execute s msg (UpdateMedicalRecord i h m) = (s', Ok out) →
  s' = update_post msg i h m s
  ∧ encryptedDataHash (record_at s' (msg_sender msg) i) = h
  ∧ metadata (record_at s' (msg_sender msg) i) = m
  ∧ timestamp (record_at s' (msg_sender msg) i)
    = timestamp (record_at s (msg_sender msg) i)
  ∧ recordId (record_at s' (msg_sender msg) i)
    = recordId (record_at s (msg_sender msg) i)
  ∧ recordType (record_at s' (msg_sender msg) i)
    = recordType (record_at s (msg_sender msg) i)
  ∧ uploadedBy (record_at s' (msg_sender msg) i)
    = uploadedBy (record_at s (msg_sender msg) i)
  ∧ isActive (record_at s' (msg_sender msg) i)
    = isActive (record_at s (msg_sender msg) i)
  ∧ (∀ b j, (b, j) ≠ (msg_sender msg, i) →
       patientRecords s' !! (b, j) = patientRecords s !! (b, j))
  ∧ patientRecordCount s' = patientRecordCount s
  ∧ recordIdExists s' = recordIdExists s
  ∧ authorizedPatients s' = authorizedPatients s
  ∧ owner s' = owner s
  ∧ patientRegistryContract s' = patientRegistryContract s
  ∧ totalRecordsStored s' = totalRecordsStored s.
Proof.
  rewrite execute_updateMedicalRecord, updateMedicalRecord_eq.
  destruct (passes_gate s (msg_sender msg)); [|discriminate].
  destruct (i <? count_of s (msg_sender msg)); [|discriminate].
  destruct (isActive (record_at s (msg_sender msg) i)) eqn:Hact; [|discriminate].
  destruct (nonempty h); [|discriminate].
  intros [= <- _].
  split; [reflexivity|].
  rewrite record_at_update_post, decide_True by reflexivity.
  repeat split; [exact Hact|].
  intros b j Hne. unfold update_post. cbn [patientRecords set_patientRecords].
  apply lookup_insert_ne. congruence.
Qed.

Lemma C4_witness :
  execute example_state (mkMsg bob 300) (UpdateMedicalRecord 0 "0xbb" "{x}")
  = (update_post (mkMsg bob 300) 0 "0xbb" "{x}" example_state,
     Ok (VBool true, [MedicalRecordUpdated bob "r1" 300]))
  ∧ encryptedDataHash
      (record_at (update_post (mkMsg bob 300) 0 "0xbb" "{x}" example_state) bob 0)
    = "0xbb"
  ∧ timestamp
      (record_at (update_post (mkMsg bob 300) 0 "0xbb" "{x}" example_state) bob 0)
    = timestamp (record_at example_state bob 0)
  ∧ totalRecordsStored (update_post (mkMsg bob 300) 0 "0xbb" "{x}" example_state)
    = totalRecordsStored example_state.
Proof.
  assert (Hex : execute example_state (mkMsg bob 300) (UpdateMedicalRecord 0 "0xbb" "{x}")
                = (update_post (mkMsg bob 300) 0 "0xbb" "{x}" example_state,
                   Ok (VBool true, [MedicalRecordUpdated bob "r1" 300])))
    by (vm_compute; reflexivity).
  destruct (C4_update_frame _ _ _ _ _ _ _ Hex)
    as (_ & Hh & _ & Hts & _ & _ & _ & _ & _ & _ & _ & _ & _ & _ & Htot).
  split; [exact Hex|]. split; [exact Hh|]. split; [exact Hts|exact Htot].
Defined.

(** C5 — Failure behaviour of [updateMedicalRecord].  For a caller that
    passes the gate the checks run in the order of the source: an index at
    or beyond the caller's count fails with ["Invalid record index"]
    ([OutOfRange]); otherwise an inactive target fails with
    ["Record not active"] ([InvalidState]); otherwise an empty data hash
    fails with ["Data hash cannot be empty"] ([InvalidArgument]).  Whenever
    one of the three conditions holds the call fails with one of these three
    kinds, and every failing call commits nothing, so the targeted record's
    [encryptedDataHash] and [metadata] are unchanged. *)
Theorem C5_update_failures (s : State) (msg : Msg) (i : N) (h m : string) :
  passes_gate s (msg_sender msg) = true →
  (count_of s (msg_sender msg) ≤ i →
     execute s msg (UpdateMedicalRecord i h m) = (s, Fail (Revert ERR_INVALID_INDEX)))
  ∧ (i < count_of s (msg_sender msg) →
     isActive (record_at s (msg_sender msg) i) = false →
     execute s msg (UpdateMedicalRecord i h m) = (s, Fail (Revert ERR_NOT_ACTIVE)))
  ∧ (i < count_of s (msg_sender msg) →
     isActive (record_at s (msg_sender msg) i) = true →
     nonempty h = false →
     execute s msg (UpdateMedicalRecord i h m) = (s, Fail (Revert ERR_EMPTY_HASH)))
  ∧ (count_of s (msg_sender msg) ≤ i
     ∨ isActive (record_at s (msg_sender msg) i) = false
     ∨ nonempty h = false →
     ∃ f, execute s msg (UpdateMedicalRecord i h m) = (s, Fail f)
          ∧ (error_kind f = Some OutOfRange
             ∨ error_kind f = Some InvalidState
             ∨ error_kind f = Some InvalidArgument))
  ∧ (∀ f, snd (execute s msg (UpdateMedicalRecord i h m)) = Fail f →
       fst (execute s msg (UpdateMedicalRecord i h m)) = s
       ∧ encryptedDataHash
           (record_at (fst (execute s msg (UpdateMedicalRecord i h m))) (msg_sender msg) i)
         = encryptedDataHash (record_at s (msg_sender msg) i)
       ∧ metadata
           (record_at (fst (execute s msg (UpdateMedicalRecord i h m))) (msg_sender msg) i)
         = metadata (record_at s (msg_sender msg) i))
  ∧ error_kind (Revert ERR_INVALID_INDEX) = Some OutOfRange
  ∧ error_kind (Revert ERR_NOT_ACTIVE) = Some InvalidState
  ∧ error_kind (Revert ERR_EMPTY_HASH) = Some InvalidArgument.
Proof.
  intros Hg.
  rewrite execute_updateMedicalRecord, updateMedicalRecord_eq, Hg.
  repeat split.
  - intros Hge. apply N.ltb_ge in Hge. rewrite Hge. reflexivity.
  - intros Hlt Hoff. apply N.ltb_lt in Hlt. rewrite Hlt, Hoff. reflexivity.
  - intros Hlt Hon He. apply N.ltb_lt in Hlt. rewrite Hlt, Hon, He. reflexivity.
  - intros Hcase.
    destruct (i <? count_of s (msg_sender msg)) eqn:Hlt;
      [|eexists; split; [reflexivity|left; reflexivity]].
    destruct (isActive (record_at s (msg_sender msg) i)) eqn:Hact;
      [|eexists; split; [reflexivity|right; left; reflexivity]].
    destruct (nonempty h) eqn:He;
      [|eexists; split; [reflexivity|right; right; reflexivity]].
    apply N.ltb_lt in Hlt. destruct Hcase as [Hc|[Hc|Hc]]; [lia|discriminate..].
  - destruct (i <? count_of s (msg_sender msg)); [|reflexivity].
    destruct (isActive (record_at s (msg_sender msg) i)); [|reflexivity].
    destruct (nonempty h); [discriminate|reflexivity].
  - destruct (i <? count_of s (msg_sender msg)); [|reflexivity].
    destruct (isActive (record_at s (msg_sender msg) i)); [|reflexivity].
    destruct (nonempty h); [discriminate|reflexivity].
  - destruct (i <? count_of s (msg_sender msg)); [|reflexivity].
    destruct (isActive (record_at s (msg_sender msg) i)); [|reflexivity].
    destruct (nonempty h); [discriminate|reflexivity].
Qed.

Lemma C5_witness :
  execute example_state (mkMsg bob 200) (UpdateMedicalRecord 3 "0xbb" "{}")
  = (example_state, Fail (Revert ERR_INVALID_INDEX))
  ∧ execute example_state (mkMsg bob 200) (UpdateMedicalRecord 1 "0xbb" "{}")
    = (example_state, Fail (Revert ERR_NOT_ACTIVE))
  ∧ execute example_state (mkMsg bob 200) (UpdateMedicalRecord 0 EmptyString "{}")
    = (example_state, Fail (Revert ERR_EMPTY_HASH)).
Proof.
  assert (Hg : passes_gate example_state (msg_sender (mkMsg bob 200)) = true)
    by (vm_compute; reflexivity).
  split; [|split].
  - destruct (C5_update_failures example_state (mkMsg bob 200) 3 "0xbb" "{}" Hg)
      as (H & _). apply H. vm_compute. discriminate.
  - destruct (C5_update_failures example_state (mkMsg bob 200) 1 "0xbb" "{}" Hg)
      as (_ & H & _). apply H; vm_compute; reflexivity.
  - destruct (C5_update_failures example_state (mkMsg bob 200) 0 EmptyString "{}" Hg)
      as (_ & _ & H & _). apply H; vm_compute; reflexivity.
Defined.

Lemma active_ids_spec s a id :
  In id (active_ids s a) ↔
  ∃ i, i < count_of s a ∧ isActive (record_at s a i) = true
       ∧ recordId (record_at s a i) = id.
Proof.
  unfold active_ids, records_of. rewrite in_map_iff. split.
  - intros (r & Hid & Hin). apply filter_In in Hin as [Hin Hact].
    apply in_map_iff in Hin as (k & <- & Hk). apply in_seq in Hk.
    exists (N.of_nat k). repeat split; [lia|exact Hact|exact Hid].
  - intros (i & Hlt & Hact & Hid). exists (record_at s a i).
    split; [exact Hid|]. apply filter_In. split; [|exact Hact].
    apply in_map_iff. exists (N.to_nat i). rewrite N2Nat.id.
    split; [reflexivity|]. apply in_seq. lia.
Qed.

(** Every count of a reachable state is a [uint256]. *)
Lemma reachable_count_bounded s a : reachable s → count_of s a ≤ MAX_UINT256.
Proof.
  intros Hr. pose proof (ledger_inv_reachable s Hr) as Hinv.
  pose proof (count_of_le_sum s a). pose proof (inv_total s Hinv).
  pose proof (inv_bound s Hinv). lia.
Qed.

(** C6 — [getPatientRecordIds].  Queried by [a] itself or by the owner
    (the count of [a] being a [uint256], as in every reachable state), the
    call returns, commits nothing, and its result is the list of the
    [recordId]s of the records of [a] at indices [0 .. count-1], in index
    order, keeping exactly those with [isActive = true]. *)
Theorem C6_get_record_ids (s : State) (msg : Msg) (a : N) :
  count_of s a ≤ MAX_UINT256 →
  msg_sender msg = a ∨ msg_sender msg = owner s →
  execute s msg (GetPatientRecordIds a) = (s, Ok (VStrings (active_ids s a), []))
  ∧ active_ids s a
    = List.map recordId
        (List.filter isActive
           (List.map (λ k, record_at s a (N.of_nat k))
                     (seq 0 (N.to_nat (count_of s a)))))
  ∧ (∀ id, In id (active_ids s a) ↔
           ∃ i, i < count_of s a ∧ isActive (record_at s a i) = true
                ∧ recordId (record_at s a i) = id).
Proof.
  intros Hc Hwho. split; [|split; [reflexivity|apply active_ids_spec]].
  rewrite execute_getPatientRecordIds, getPatientRecordIds_eq by exact Hc.
  replace ((msg_sender msg =? a) || (msg_sender msg =? owner s)) with true;
    [reflexivity|].
  symmetry. apply orb_true_iff.
  destruct Hwho as [->| ->]; [left|right]; apply N.eqb_refl.
Qed.

Lemma C6_witness :
  execute example_state (mkMsg bob 105) (GetPatientRecordIds bob)
  = (example_state, Ok (VStrings ["r1"; "r3"], [])).
Proof.
  destruct (C6_get_record_ids example_state (mkMsg bob 105) bob) as (H & _).
  - vm_compute. discriminate.
  - left. reflexivity.
  - rewrite H. vm_compute. reflexivity.
Defined.

(** C7 — Owner-only authorization management.  [authorizePatient] by a
    caller other than the owner fails with
    ["Only owner can call this function"] ([Unauthorized]) and commits
    nothing; by the owner it fails with ["Invalid address"]
    ([InvalidArgument]) on the zero address and otherwise returns [true]
    with the address in the authorization set and every other membership
    unchanged. *)
Theorem C7_authorize_owner_only (s : State) (msg : Msg) (a : N) :
  (msg_sender msg ≠ owner s →
     execute s msg (AuthorizePatient a) = (s, Fail (Revert ERR_ONLY_OWNER)))
  ∧ (msg_sender msg = owner s → a = zero_address →
     execute s msg (AuthorizePatient a) = (s, Fail (Revert ERR_INVALID_ADDRESS)))
  ∧ (msg_sender msg = owner s → a ≠ zero_address →
     ∃ s',
       execute s msg (AuthorizePatient a)
       = (s', Ok (VBool true, [PatientAuthorized a (block_timestamp msg)]))
       ∧ authorized s' a = true
       ∧ (∀ b, b ≠ a → authorized s' b = authorized s b))
  ∧ error_kind (Revert ERR_ONLY_OWNER) = Some Unauthorized
  ∧ error_kind (Revert ERR_INVALID_ADDRESS) = Some InvalidArgument.
Proof.
  rewrite execute_authorizePatient, authorizePatient_eq.
  split; [|split; [|split; [|split; reflexivity]]].
  - intros Hne. apply N.eqb_neq in Hne. rewrite Hne. reflexivity.
  - intros Ho ->. apply N.eqb_eq in Ho. rewrite Ho. reflexivity.
  - intros Ho Hnz. apply N.eqb_eq in Ho. apply N.eqb_neq in Hnz.
    rewrite Ho, Hnz. eexists. split; [reflexivity|].
    unfold authorized. cbn [authorizedPatients set_authorizedPatients]. split.
    + rewrite lookup_insert_eq. reflexivity.
    + intros b Hb. rewrite lookup_insert_ne by congruence. reflexivity.
Qed.

Lemma C7_witness :
  execute example_state (mkMsg bob 200) (AuthorizePatient carol)
  = (example_state, Fail (Revert ERR_ONLY_OWNER))
  ∧ execute example_state (mkMsg alice 200) (AuthorizePatient 0)
    = (example_state, Fail (Revert ERR_INVALID_ADDRESS))
  ∧ ∃ s',
      execute example_state (mkMsg alice 200) (AuthorizePatient carol)
      = (s', Ok (VBool true, [PatientAuthorized carol 200]))
      ∧ authorized s' carol = true.
Proof.
  split; [|split].
  - destruct (C7_authorize_owner_only example_state (mkMsg bob 200) carol)
      as (H & _). apply H. vm_compute. discriminate.
  - destruct (C7_authorize_owner_only example_state (mkMsg alice 200) 0)
      as (_ & H & _). apply H; vm_compute; reflexivity.
  - destruct (C7_authorize_owner_only example_state (mkMsg alice 200) carol)
      as (_ & _ & H & _).
    destruct H as (s' & Hex & Hin & _);
      [vm_compute; reflexivity | vm_compute; discriminate |].
    exists s'. split; [exact Hex|exact Hin].
Defined.

(** C8, as stated, fails: the owner may transfer the ownership to itself,
    and then the prior owner keeps every owner-only privilege.  Here the
    deployer [alice] transfers to [alice] and her next [authorizePatient]
    returns [true]. *)
Lemma C8_counterexample :
  msg_sender (mkMsg alice 100) = owner (constructor (mkMsg alice 99))
  ∧ alice ≠ zero_address
  ∧ execute (constructor (mkMsg alice 99)) (mkMsg alice 100) (TransferOwnership alice)
    = (set_owner alice (constructor (mkMsg alice 99)), Ok (VUnit, []))
  ∧ snd (execute (set_owner alice (constructor (mkMsg alice 99)))
           (mkMsg alice 101) (AuthorizePatient bob))
    = Ok (VBool true, [PatientAuthorized bob 101])
  ∧ snd (execute (set_owner alice (constructor (mkMsg alice 99)))
           (mkMsg alice 101) (AuthorizePatient bob))
    ≠ Fail (Revert ERR_ONLY_OWNER).
Proof.
  split; [reflexivity|]. split; [discriminate|].
  split; [vm_compute; reflexivity|].
  split; [vm_compute; reflexivity|vm_compute; discriminate].
Qed.

(** C8 (amended) — [transferOwnership] by the current owner: with the zero
    address it fails with ["New owner cannot be zero address"]
    ([InvalidArgument]) and the owner is unchanged; with a non-zero address
    it returns, the owner is that address and nothing else changes; and
    when that address is not the caller itself, every later owner-only call
    by the prior owner fails with ["Only owner can call this function"]
    ([Unauthorized]). *)
Theorem C8_transfer_ownership (s : State) (msg : Msg) (a : N) :
  msg_sender msg = owner s →
  (a = zero_address →
     execute s msg (TransferOwnership a) = (s, Fail (Revert ERR_ZERO_OWNER)))
  ∧ (a ≠ zero_address →
     execute s msg (TransferOwnership a) = (set_owner a s, Ok (VUnit, []))
     ∧ owner (set_owner a s) = a
     ∧ (a ≠ msg_sender msg →
        ∀ msg' c,
          msg_sender msg' = msg_sender msg →
          is_owner_only c = true →
          execute (set_owner a s) msg' c
          = (set_owner a s, Fail (Revert ERR_ONLY_OWNER))))
  ∧ error_kind (Revert ERR_ZERO_OWNER) = Some InvalidArgument
  ∧ error_kind (Revert ERR_ONLY_OWNER) = Some Unauthorized.
Proof.
  intros Ho. rewrite execute_transferOwnership, transferOwnership_eq.
  apply N.eqb_eq in Ho as Ho'. rewrite Ho'.
  split; [|split; [|split; reflexivity]].
  - intros ->. reflexivity.
  - intros Hnz. apply N.eqb_neq in Hnz. rewrite Hnz.
    split; [reflexivity|]. split; [reflexivity|].
    intros Hother msg' c Hsame Hoo.
    assert (Hno : (msg_sender msg' =? owner (set_owner a s)) = false).
    { apply N.eqb_neq. cbn [owner set_owner]. congruence. }
    destruct c; try discriminate Hoo; unfold execute, dispatch.
    + rewrite (execute_bind_ret _ (λ _, VUnit)), setPatientRegistryContract_eq, Hno.
      reflexivity.
    + rewrite (execute_bind_ret _ VBool), authorizePatient_eq, Hno. reflexivity.
    + rewrite (execute_bind_ret _ VBool), deauthorizePatient_eq, Hno. reflexivity.
    + rewrite (execute_bind_ret _ (λ _, VUnit)), transferOwnership_eq, Hno.
      reflexivity.
Qed.

Lemma C8_witness :
  execute example_state (mkMsg alice 200) (TransferOwnership carol)
  = (set_owner carol example_state, Ok (VUnit, []))
  ∧ execute (set_owner carol example_state) (mkMsg alice 201) (AuthorizePatient bob)
    = (set_owner carol example_state, Fail (Revert ERR_ONLY_OWNER))
  ∧ execute example_state (mkMsg alice 200) (TransferOwnership 0)
    = (example_state, Fail (Revert ERR_ZERO_OWNER)).
Proof.
  assert (Ho : msg_sender (mkMsg alice 200) = owner example_state)
    by (vm_compute; reflexivity).
  split; [|split].
  - destruct (C8_transfer_ownership example_state (mkMsg alice 200) carol Ho)
      as (_ & H & _).
    destruct H as (Hex & _); [vm_compute; discriminate|exact Hex].
  - destruct (C8_transfer_ownership example_state (mkMsg alice 200) carol Ho)
      as (_ & H & _).
    destruct H as (_ & _ & Hlost); [vm_compute; discriminate|].
    apply Hlost; [vm_compute; discriminate|reflexivity|reflexivity].
  - destruct (C8_transfer_ownership example_state (mkMsg alice 200) 0 Ho)
      as (H & _). apply H. reflexivity.
Defined.

(** C9 — Record-count monotonicity and accounting.  No transaction and no
    history lowers the count of an address, and [deactivateMedicalRecord]
    leaves every count as it is; from the deployment on, the count of [a] is
    the number of [addMedicalRecord] calls by [a] that returned, and the
    global total is the sum of the per-address counts;
    [getPatientRecordCount] reads that count. *)
Theorem C9_record_count_accounting :
  (∀ s msg c a, count_of s a ≤ count_of (fst (execute s msg c)) a)
  ∧ (∀ s tr a, count_of s a ≤ count_of (run s tr) a)
  ∧ (∀ s msg i a,
       count_of (fst (execute s msg (DeactivateMedicalRecord i))) a = count_of s a)
  ∧ (∀ deploy tr a,
       count_of (run (constructor deploy) tr) a
       = successful_adds a (constructor deploy) tr)
  ∧ (∀ deploy tr,
       totalRecordsStored (run (constructor deploy) tr)
       = sum_counts (run (constructor deploy) tr))
  ∧ (∀ s msg a,
       execute s msg (GetPatientRecordCount a) = (s, Ok (VUint (count_of s a), []))).
Proof.
  split; [|split; [|split; [|split; [|split]]]].
  - intros s msg c a. apply (commits_count s msg), execute_commits.
  - intros s tr a. rewrite run_count. lia.
  - intros s msg i a. rewrite execute_count. cbn. lia.
  - intros deploy tr a. rewrite run_count.
    unfold count_of at 1, constructor. cbn [patientRecordCount].
    rewrite lookup_empty. cbn. reflexivity.
  - intros deploy tr. apply inv_total, ledger_inv_run, ledger_inv_constructor.
  - reflexivity.
Qed.

(** C10 — [amIAuthorized] and [isPatientAuthorized] report the raw
    allow-list membership.  For an owner that is not in the allow-list,
    [amIAuthorized] returns [false] although the gate of the write
    operations, [onlyAuthorizedPatient], lets that owner through; this is
    the situation right after deployment. *)
Theorem C10_am_i_authorized_raw (s : State) (msg : Msg) :
  execute s msg AmIAuthorized = (s, Ok (VBool (authorized s (msg_sender msg)), []))
  ∧ (∀ a, execute s msg (IsPatientAuthorized a) = (s, Ok (VBool (authorized s a), [])))
  ∧ (msg_sender msg = owner s →
     authorized s (owner s) = false →
     execute s msg AmIAuthorized = (s, Ok (VBool false, []))
     ∧ execute s msg (IsPatientAuthorized (owner s)) = (s, Ok (VBool false, []))
     ∧ onlyAuthorizedPatient msg s = Ok (tt, s, [])
     ∧ passes_gate s (msg_sender msg) = true)
  ∧ (∀ deploy, authorized (constructor deploy) (owner (constructor deploy)) = false).
Proof.
  split; [reflexivity|]. split; [reflexivity|]. split; [|reflexivity].
  intros Ho Hraw.
  assert (Hg : passes_gate s (msg_sender msg) = true).
  { unfold passes_gate. apply orb_true_iff. right. apply N.eqb_eq, Ho. }
  split; [|split; [|split; [|exact Hg]]].
  - rewrite execute_amIAuthorized, Ho, Hraw. reflexivity.
  - change (execute s msg (IsPatientAuthorized (owner s)))
      with (s, @Ok (RetVal * list Event) (VBool (authorized s (owner s)), [])).
    rewrite Hraw. reflexivity.
  - unfold onlyAuthorizedPatient; unfold_monad.
    unfold passes_gate in Hg. rewrite Hg. reflexivity.
Qed.

Lemma C10_witness :
  execute (constructor (mkMsg alice 99)) (mkMsg alice 100) AmIAuthorized
  = (constructor (mkMsg alice 99), Ok (VBool false, []))
  ∧ onlyAuthorizedPatient (mkMsg alice 100) (constructor (mkMsg alice 99))
    = Ok (tt, constructor (mkMsg alice 99), []).
Proof.
  destruct (C10_am_i_authorized_raw (constructor (mkMsg alice 99)) (mkMsg alice 100))
    as (_ & _ & H & _).
  destruct H as (Hview & _ & Hgate & _); [reflexivity|reflexivity|].
  split; [exact Hview|exact Hgate].
Defined.

(** * Further properties of the contract *)

(** ** Every call as a decision tree *)

Ltac case_if :=
  repeat match goal with
         | |- context [if ?b then _ else _] => destruct b eqn:?
         end.

Lemma exec_setPatientRegistryContract s msg r :
  execute s msg (SetPatientRegistryContract r) =
    if msg_sender msg =? owner s
    then (set_patientRegistryContract r s, Ok (VUnit, []))
    else (s, Fail (Revert ERR_ONLY_OWNER)).
Proof.
  unfold execute, dispatch.
  rewrite (execute_bind_ret _ (λ _, VUnit)), setPatientRegistryContract_eq.
  case_if; reflexivity.
Qed.

Lemma exec_authorizePatient s msg a :
  execute s msg (AuthorizePatient a) =
    if msg_sender msg =? owner s
    then if a =? zero_address
         then (s, Fail (Revert ERR_INVALID_ADDRESS))
         else (set_authorizedPatients <[a := true]> s,
               Ok (VBool true, [PatientAuthorized a (block_timestamp msg)]))
    else (s, Fail (Revert ERR_ONLY_OWNER)).
Proof.
  rewrite execute_authorizePatient, authorizePatient_eq. case_if; reflexivity.
Qed.

Lemma exec_deauthorizePatient s msg a :
  execute s msg (DeauthorizePatient a) =
    if msg_sender msg =? owner s
    then (set_authorizedPatients <[a := false]> s,
          Ok (VBool true, [PatientDeauthorized a (block_timestamp msg)]))
    else (s, Fail (Revert ERR_ONLY_OWNER)).
Proof.
  unfold execute, dispatch.
  rewrite (execute_bind_ret _ VBool), deauthorizePatient_eq.
  case_if; reflexivity.
Qed.

Lemma exec_transferOwnership s msg a :
  execute s msg (TransferOwnership a) =
    if msg_sender msg =? owner s
    then if a =? zero_address
         then (s, Fail (Revert ERR_ZERO_OWNER))
         else (set_owner a s, Ok (VUnit, []))
    else (s, Fail (Revert ERR_ONLY_OWNER)).
Proof.
  rewrite execute_transferOwnership, transferOwnership_eq. case_if; reflexivity.
Qed.

Lemma exec_addMedicalRecord s msg id h t m :
  execute s msg (AddMedicalRecord id h t m) =
    if passes_gate s (msg_sender msg) then
      if nonempty id then
        if nonempty h then
          if id_used s id then (s, Fail (Revert ERR_ID_EXISTS))
          else if count_of s (msg_sender msg) <? MAX_UINT256 then
            if totalRecordsStored s <? MAX_UINT256 then
              (add_post msg id h t m s,
               Ok (VBool true,
                   [MedicalRecordAdded (msg_sender msg) id t (block_timestamp msg)
                      (msg_sender msg)]))
            else (s, Fail (Panic 17))
          else (s, Fail (Panic 17))
        else (s, Fail (Revert ERR_EMPTY_HASH))
      else (s, Fail (Revert ERR_EMPTY_ID))
    else (s, Fail (Revert ERR_NOT_AUTHORIZED)).
Proof.
  rewrite execute_addMedicalRecord, addMedicalRecord_eq. case_if; reflexivity.
Qed.

Lemma exec_updateMedicalRecord s msg i h m :
  execute s msg (UpdateMedicalRecord i h m) =
    if passes_gate s (msg_sender msg) then
      if i <? count_of s (msg_sender msg) then
        if isActive (record_at s (msg_sender msg) i) then
          if nonempty h then
            (update_post msg i h m s,
             Ok (VBool true,
                 [MedicalRecordUpdated (msg_sender msg)
                    (recordId (record_at s (msg_sender msg) i)) (block_timestamp msg)]))
          else (s, Fail (Revert ERR_EMPTY_HASH))
        else (s, Fail (Revert ERR_NOT_ACTIVE))
      else (s, Fail (Revert ERR_INVALID_INDEX))
    else (s, Fail (Revert ERR_NOT_AUTHORIZED)).
Proof.
  rewrite execute_updateMedicalRecord, updateMedicalRecord_eq. case_if; reflexivity.
Qed.

Lemma exec_deactivateMedicalRecord s msg i :
  execute s msg (DeactivateMedicalRecord i) =
    if passes_gate s (msg_sender msg) then
      if i <? count_of s (msg_sender msg) then
        if isActive (record_at s (msg_sender msg) i) then
          (deactivate_post msg i s,
           Ok (VBool true,
               [MedicalRecordDeactivated (msg_sender msg)
                  (recordId (record_at s (msg_sender msg) i)) (block_timestamp msg)]))
        else (s, Fail (Revert ERR_ALREADY_INACTIVE))
      else (s, Fail (Revert ERR_INVALID_INDEX))
    else (s, Fail (Revert ERR_NOT_AUTHORIZED)).
Proof.
  rewrite execute_deactivateMedicalRecord, deactivateMedicalRecord_eq.
  case_if; reflexivity.
Qed.

Lemma exec_getMedicalRecord s msg a i :
  execute s msg (GetMedicalRecord a i) =
    if (msg_sender msg =? a) || (msg_sender msg =? owner s)
    then if i <? count_of s a
         then (s, Ok (VRecord (record_at s a i), []))
         else (s, Fail (Revert ERR_INVALID_INDEX))
    else (s, Fail (Revert ERR_PATIENT_OR_OWNER)).
Proof.
  unfold execute, dispatch.
  rewrite (execute_bind_ret _ VRecord), getMedicalRecord_eq. case_if; reflexivity.
Qed.

Lemma exec_getPatientRecordIds s msg a :
  count_of s a ≤ MAX_UINT256 →
  execute s msg (GetPatientRecordIds a) =
    if (msg_sender msg =? a) || (msg_sender msg =? owner s)
    then (s, Ok (VStrings (active_ids s a), []))
    else (s, Fail (Revert ERR_PATIENT_OR_OWNER)).
Proof.
  intros Hc. rewrite execute_getPatientRecordIds, getPatientRecordIds_eq by exact Hc.
  case_if; reflexivity.
Qed.

Lemma exec_getPatientRecordIds_denied s msg a :
  (msg_sender msg =? a) || (msg_sender msg =? owner s) = false →
  execute s msg (GetPatientRecordIds a) = (s, Fail (Revert ERR_PATIENT_OR_OWNER)).
Proof.
  intros Hno. rewrite execute_getPatientRecordIds.
  unfold getPatientRecordIds.
  rewrite (bind_Fail _ _ s (Revert ERR_PATIENT_OR_OWNER)); [reflexivity|].
  rewrite onlyPatientOrOwner_eq, Hno. reflexivity.
Qed.

Lemma execute_effect s msg c : effect s msg c (fst (execute s msg c)).
Proof.
  destruct c as [r|a|a|id h t m|i h m|i|a i|a|a|a| |a| | ];
    try (rewrite execute_view by reflexivity; apply effect_none).
  - rewrite exec_setPatientRegistryContract.
    destruct (msg_sender msg =? owner s) eqn:Ho; [|apply effect_none].
    apply N.eqb_eq in Ho. by constructor.
  - rewrite exec_authorizePatient.
    destruct (msg_sender msg =? owner s) eqn:Ho; [|apply effect_none].
    destruct (a =? zero_address) eqn:Hz; [apply effect_none|].
    apply N.eqb_eq in Ho. apply N.eqb_neq in Hz. by constructor.
  - rewrite exec_deauthorizePatient.
    destruct (msg_sender msg =? owner s) eqn:Ho; [|apply effect_none].
    apply N.eqb_eq in Ho. by constructor.
  - rewrite exec_addMedicalRecord.
    destruct (passes_gate s (msg_sender msg)) eqn:Hg; [|apply effect_none].
    destruct (nonempty id) eqn:Hid; [|apply effect_none].
    destruct (nonempty h) eqn:Hh; [|apply effect_none].
    destruct (id_used s id) eqn:Hu; [apply effect_none|].
    destruct (count_of s (msg_sender msg) <? MAX_UINT256) eqn:Hc; [|apply effect_none].
    destruct (totalRecordsStored s <? MAX_UINT256) eqn:Ht; [|apply effect_none].
    apply N.ltb_lt in Hc, Ht. by constructor.
  - rewrite exec_updateMedicalRecord.
    destruct (passes_gate s (msg_sender msg)) eqn:Hg; [|apply effect_none].
    destruct (i <? count_of s (msg_sender msg)) eqn:Hi; [|apply effect_none].
    destruct (isActive (record_at s (msg_sender msg) i)) eqn:Ha; [|apply effect_none].
    destruct (nonempty h) eqn:Hh; [|apply effect_none].
    apply N.ltb_lt in Hi. by constructor.
  - rewrite exec_deactivateMedicalRecord.
    destruct (passes_gate s (msg_sender msg)) eqn:Hg; [|apply effect_none].
    destruct (i <? count_of s (msg_sender msg)) eqn:Hi; [|apply effect_none].
    destruct (isActive (record_at s (msg_sender msg) i)) eqn:Ha; [|apply effect_none].
    apply N.ltb_lt in Hi. by constructor.
  - rewrite exec_transferOwnership.
    destruct (msg_sender msg =? owner s) eqn:Ho; [|apply effect_none].
    destruct (a =? zero_address) eqn:Hz; [apply effect_none|].
    apply N.eqb_eq in Ho. apply N.eqb_neq in Hz. by constructor.
Qed.

(** ** Write operations: success frame and failures *)

(** X1 — [deactivateMedicalRecord] on an active record of the caller
    returns [true] and emits one [MedicalRecordDeactivated] with the
    record's id; the slot keeps every field but [isActive], now [false];
    all other slots, the counts, the id set, the authorization set, the
    owner, the registry link and the total are as before. *)
Theorem X1_deactivate_frame (s : State) (msg : Msg) (i : N) :
  passes_gate s (msg_sender msg) = true →
  i < count_of s (msg_sender msg) →
  isActive (record_at s (msg_sender msg) i) = true →
  ∃ s',
    execute s msg (DeactivateMedicalRecord i)
    = (s', Ok (VBool true,
               [MedicalRecordDeactivated (msg_sender msg)
                  (recordId (record_at s (msg_sender msg) i)) (block_timestamp msg)]))
    ∧ record_at s' (msg_sender msg) i
      = mkMedicalRecord
          (recordId (record_at s (msg_sender msg) i))
          (encryptedDataHash (record_at s (msg_sender msg) i))
          (recordType (record_at s (msg_sender msg) i))
          (timestamp (record_at s (msg_sender msg) i))
          (uploadedBy (record_at s (msg_sender msg) i))
          false
          (metadata (record_at s (msg_sender msg) i))
    ∧ (∀ b j, (b, j) ≠ (msg_sender msg, i) →
         patientRecords s' !! (b, j) = patientRecords s !! (b, j))
    ∧ patientRecordCount s' = patientRecordCount s
    ∧ recordIdExists s' = recordIdExists s
    ∧ authorizedPatients s' = authorizedPatients s
    ∧ owner s' = owner s
    ∧ patientRegistryContract s' = patientRegistryContract s
    ∧ totalRecordsStored s' = totalRecordsStored s.
Proof.
  intros Hg Hlt Hact. exists (deactivate_post msg i s).
  rewrite exec_deactivateMedicalRecord, Hg, Hact.
  apply N.ltb_lt in Hlt. rewrite Hlt.
  split; [reflexivity|]. split.
  - rewrite record_at_deactivate_post, decide_True by reflexivity. reflexivity.
  - repeat split. intros b j Hne. unfold deactivate_post.
    cbn [patientRecords set_patientRecords]. apply lookup_insert_ne. congruence.
Qed.

Lemma X1_witness :
  ∃ s',
    execute example_state (mkMsg bob 200) (DeactivateMedicalRecord 2)
    = (s', Ok (VBool true, [MedicalRecordDeactivated bob "r3" 200]))
    ∧ record_at s' bob 2 = mkMedicalRecord "r3" "0xa3" "visit" 103 bob false "{}"
    ∧ totalRecordsStored s' = 3.
Proof.
  destruct (X1_deactivate_frame example_state (mkMsg bob 200) 2)
    as (s' & Hex & Hrec & _ & _ & _ & _ & _ & _ & Htot);
    try (vm_compute; reflexivity).
  exists s'. split; [exact Hex|]. split; [exact Hrec|exact Htot].
Defined.

(** X2 — A caller that is neither in the authorization set nor the owner
    cannot write: [addMedicalRecord], [updateMedicalRecord] and
    [deactivateMedicalRecord] revert with ["Not authorized to add records"]
    whatever their arguments, before any other check, and commit
    nothing. *)
Theorem X2_unauthorized_writer (s : State) (msg : Msg) :
  authorized s (msg_sender msg) = false →
  msg_sender msg ≠ owner s →
  (∀ id h t m,
     execute s msg (AddMedicalRecord id h t m)
     = (s, Fail (Revert ERR_NOT_AUTHORIZED)))
  ∧ (∀ i h m,
       execute s msg (UpdateMedicalRecord i h m)
       = (s, Fail (Revert ERR_NOT_AUTHORIZED)))
  ∧ (∀ i,
       execute s msg (DeactivateMedicalRecord i)
       = (s, Fail (Revert ERR_NOT_AUTHORIZED))).
Proof.
  intros Hraw Hno.
  assert (Hg : passes_gate s (msg_sender msg) = false).
  { unfold passes_gate. rewrite Hraw. apply N.eqb_neq in Hno. rewrite Hno.
    reflexivity. }
  split; [|split]; intros.
  - rewrite exec_addMedicalRecord, Hg. reflexivity.
  - rewrite exec_updateMedicalRecord, Hg. reflexivity.
  - rewrite exec_deactivateMedicalRecord, Hg. reflexivity.
Qed.

Lemma X2_witness :
  execute example_state (mkMsg carol 200) (AddMedicalRecord "r9" "0xff" "lab" "{}")
  = (example_state, Fail (Revert ERR_NOT_AUTHORIZED))
  ∧ execute example_state (mkMsg carol 200) (DeactivateMedicalRecord 0)
    = (example_state, Fail (Revert ERR_NOT_AUTHORIZED)).
Proof.
  destruct (X2_unauthorized_writer example_state (mkMsg carol 200))
    as (Hadd & _ & Hoff);
    [vm_compute; reflexivity | vm_compute; discriminate |].
  split; [apply Hadd|apply Hoff].
Defined.

(** X3 — Argument checks of [addMedicalRecord], for a caller that passes
    the gate: an empty id reverts with ["Record ID cannot be empty"] whatever
    the other arguments; with a non-empty id an empty data hash reverts with
    ["Data hash cannot be empty"], also when the id is taken; [recordType]
    and [metadata] are not checked, the call returns with both empty. *)
Theorem X3_add_argument_checks (s : State) (msg : Msg) :
  passes_gate s (msg_sender msg) = true →
  (∀ h t m,
     execute s msg (AddMedicalRecord EmptyString h t m)
     = (s, Fail (Revert ERR_EMPTY_ID)))
  ∧ (∀ id t m,
       nonempty id = true →
       execute s msg (AddMedicalRecord id EmptyString t m)
       = (s, Fail (Revert ERR_EMPTY_HASH)))
  ∧ (∀ id h,
       nonempty id = true → nonempty h = true →
       id_used s id = false →
       count_of s (msg_sender msg) < MAX_UINT256 →
       totalRecordsStored s < MAX_UINT256 →
       execute s msg (AddMedicalRecord id h EmptyString EmptyString)
       = (add_post msg id h EmptyString EmptyString s,
          Ok (VBool true,
              [MedicalRecordAdded (msg_sender msg) id EmptyString
                 (block_timestamp msg) (msg_sender msg)]))).
Proof.
  intros Hg. split; [|split].
  - intros. rewrite exec_addMedicalRecord, Hg. reflexivity.
  - intros id t m Hid. rewrite exec_addMedicalRecord, Hg, Hid. reflexivity.
  - intros id h Hid Hh Hu Hc Ht. by apply add_succeeds.
Qed.

Lemma X3_witness :
  execute example_state (mkMsg bob 200) (AddMedicalRecord EmptyString "0xff" "lab" "{}")
  = (example_state, Fail (Revert ERR_EMPTY_ID))
  ∧ execute example_state (mkMsg bob 200) (AddMedicalRecord "r1" EmptyString "lab" "{}")
    = (example_state, Fail (Revert ERR_EMPTY_HASH))
  ∧ execute example_state (mkMsg bob 200)
      (AddMedicalRecord "r9" "0xff" EmptyString EmptyString)
    = (add_post (mkMsg bob 200) "r9" "0xff" EmptyString EmptyString example_state,
       Ok (VBool true, [MedicalRecordAdded bob "r9" EmptyString 200 bob])).
Proof.
  destruct (X3_add_argument_checks example_state (mkMsg bob 200))
    as (Hid & Hh & Hok); [vm_compute; reflexivity|].
  split; [apply Hid|]. split; [apply Hh; reflexivity|].
  apply Hok; vm_compute; reflexivity.
Defined.

(** X4 — [deactivateMedicalRecord] checks the index first: at or beyond
    the caller's count (the next free slot included) it reverts with
    ["Invalid record index"] and commits nothing, so a caller without records
    cannot deactivate anything. *)
Theorem X4_deactivate_out_of_range (s : State) (msg : Msg) (i : N) :
  passes_gate s (msg_sender msg) = true →
  count_of s (msg_sender msg) ≤ i →
  execute s msg (DeactivateMedicalRecord i)
  = (s, Fail (Revert ERR_INVALID_INDEX))
  ∧ error_kind (Revert ERR_INVALID_INDEX) = Some OutOfRange.
Proof.
  intros Hg Hge. rewrite exec_deactivateMedicalRecord, Hg.
  apply N.ltb_ge in Hge. rewrite Hge. split; reflexivity.
Qed.

Lemma X4_witness :
  execute example_state (mkMsg bob 200) (DeactivateMedicalRecord 3)
  = (example_state, Fail (Revert ERR_INVALID_INDEX))
  ∧ execute example_state (mkMsg alice 200) (DeactivateMedicalRecord 0)
    = (example_state, Fail (Revert ERR_INVALID_INDEX)).
Proof.
  split.
  - apply (X4_deactivate_out_of_range example_state (mkMsg bob 200) 3);
      [vm_compute; reflexivity | vm_compute; discriminate].
  - apply (X4_deactivate_out_of_range example_state (mkMsg alice 200) 0);
      [vm_compute; reflexivity | vm_compute; discriminate].
Defined.

(** ** Authorization management and reads *)

Lemma count_of_set_authorizedPatients f s a :
  count_of (set_authorizedPatients f s) a = count_of s a.
Proof. reflexivity. Qed.

Lemma record_at_set_authorizedPatients f s a i :
  record_at (set_authorizedPatients f s) a i = record_at s a i.
Proof. reflexivity. Qed.

Lemma active_ids_set_authorizedPatients f s a :
  active_ids (set_authorizedPatients f s) a = active_ids s a.
Proof. reflexivity. Qed.

(** X5 — [deauthorizePatient]: a caller other than the owner gets
    ["Only owner can call this function"] and nothing changes; for the owner
    the call returns [true] for every address (there is no zero-address
    check and the address need not be authorized), its membership is then
    [false], every other membership, the owner, the records, the counts and
    the total are untouched. *)
Theorem X5_deauthorize (s : State) (msg : Msg) (a : N) :
  (msg_sender msg ≠ owner s →
     execute s msg (DeauthorizePatient a) = (s, Fail (Revert ERR_ONLY_OWNER)))
  ∧ (msg_sender msg = owner s →
     ∃ s',
       execute s msg (DeauthorizePatient a)
       = (s', Ok (VBool true, [PatientDeauthorized a (block_timestamp msg)]))
       ∧ authorized s' a = false
       ∧ (∀ b, b ≠ a → authorized s' b = authorized s b)
       ∧ owner s' = owner s
       ∧ patientRecords s' = patientRecords s
       ∧ patientRecordCount s' = patientRecordCount s
       ∧ recordIdExists s' = recordIdExists s
       ∧ totalRecordsStored s' = totalRecordsStored s).
Proof.
  rewrite exec_deauthorizePatient. split.
  - intros Hne. apply N.eqb_neq in Hne. rewrite Hne. reflexivity.
  - intros Ho. apply N.eqb_eq in Ho. rewrite Ho. eexists.
    split; [reflexivity|].
    unfold authorized. cbn [authorizedPatients set_authorizedPatients].
    split; [rewrite lookup_insert_eq; reflexivity|].
    split; [|repeat split].
    intros b Hb. rewrite lookup_insert_ne by congruence. reflexivity.
Qed.

Lemma X5_witness :
  execute example_state (mkMsg bob 200) (DeauthorizePatient bob)
  = (example_state, Fail (Revert ERR_ONLY_OWNER))
  ∧ ∃ s',
      execute example_state (mkMsg alice 200) (DeauthorizePatient 0)
      = (s', Ok (VBool true, [PatientDeauthorized 0 200]))
      ∧ authorized s' 0 = false.
Proof.
  split.
  - destruct (X5_deauthorize example_state (mkMsg bob 200) bob) as (H & _).
    apply H. vm_compute. discriminate.
  - destruct (X5_deauthorize example_state (mkMsg alice 200) 0) as (_ & H).
    destruct H as (s' & Hex & Hoff & _); [vm_compute; reflexivity|].
    exists s'. split; [exact Hex|exact Hoff].
Defined.

(** X6 — After the owner deauthorizes a patient other than itself, that
    patient's [addMedicalRecord], [updateMedicalRecord] and
    [deactivateMedicalRecord] revert with ["Not authorized to add records"],
    while its reads answer as before: [getMedicalRecord] and
    [getPatientRecordIds] on its own address return what they returned.
    Deauthorizing the owner's own address does not close the gate for the
    owner. *)
Theorem X6_deauthorized_patient (s : State) (msg : Msg) (p : N) :
  msg_sender msg = owner s →
  count_of s p ≤ MAX_UINT256 →
  let s' := fst (execute s msg (DeauthorizePatient p)) in
  (p ≠ owner s →
     ∀ msg', msg_sender msg' = p →
       (∀ id h t m,
          execute s' msg' (AddMedicalRecord id h t m)
          = (s', Fail (Revert ERR_NOT_AUTHORIZED)))
       ∧ (∀ i h m,
            execute s' msg' (UpdateMedicalRecord i h m)
            = (s', Fail (Revert ERR_NOT_AUTHORIZED)))
       ∧ (∀ i,
            execute s' msg' (DeactivateMedicalRecord i)
            = (s', Fail (Revert ERR_NOT_AUTHORIZED)))
       ∧ (∀ i,
            snd (execute s' msg' (GetMedicalRecord p i))
            = snd (execute s msg' (GetMedicalRecord p i)))
       ∧ snd (execute s' msg' (GetPatientRecordIds p))
         = snd (execute s msg' (GetPatientRecordIds p))
       ∧ snd (execute s' msg' (GetPatientRecordIds p))
         = Ok (VStrings (active_ids s p), []))
  ∧ (p = owner s → passes_gate s' (owner s') = true).
Proof.
  intros Ho Hc s'. subst s'. rewrite exec_deauthorizePatient.
  apply N.eqb_eq in Ho as Ho'. rewrite Ho'. cbn [fst]. split.
  - intros Hp msg' Hmsg'.
    assert (Hg : passes_gate (set_authorizedPatients <[p := false]> s)
                   (msg_sender msg') = false).
    { unfold passes_gate, authorized.
      cbn [authorizedPatients set_authorizedPatients owner].
      rewrite Hmsg', lookup_insert_eq. apply N.eqb_neq in Hp. rewrite Hp.
      reflexivity. }
    split; [|split; [|split; [|split; [|split]]]]; intros.
    + rewrite exec_addMedicalRecord, Hg. reflexivity.
    + rewrite exec_updateMedicalRecord, Hg. reflexivity.
    + rewrite exec_deactivateMedicalRecord, Hg. reflexivity.
    + rewrite !exec_getMedicalRecord.
      rewrite count_of_set_authorizedPatients, record_at_set_authorizedPatients.
      cbn [owner set_authorizedPatients]. case_if; reflexivity.
    + rewrite !exec_getPatientRecordIds by exact Hc.
      rewrite active_ids_set_authorizedPatients.
      cbn [owner set_authorizedPatients]. case_if; reflexivity.
    + rewrite exec_getPatientRecordIds by exact Hc.
      rewrite active_ids_set_authorizedPatients, Hmsg', N.eqb_refl. reflexivity.
  - intros _. unfold passes_gate. cbn [owner set_authorizedPatients].
    rewrite N.eqb_refl. apply orb_true_r.
Qed.

Lemma X6_witness :
  execute (fst (execute example_state (mkMsg alice 200) (DeauthorizePatient bob)))
    (mkMsg bob 201) (AddMedicalRecord "r9" "0xff" "lab" "{}")
  = (fst (execute example_state (mkMsg alice 200) (DeauthorizePatient bob)),
     Fail (Revert ERR_NOT_AUTHORIZED))
  ∧ snd (execute (fst (execute example_state (mkMsg alice 200) (DeauthorizePatient bob)))
           (mkMsg bob 201) (GetPatientRecordIds bob))
    = Ok (VStrings ["r1"; "r3"], []).
Proof.
  destruct (X6_deauthorized_patient example_state (mkMsg alice 200) bob)
    as (H & _); [vm_compute; reflexivity | vm_compute; discriminate |].
  destruct (H ltac:(vm_compute; discriminate) (mkMsg bob 201) eq_refl)
    as (Hadd & _ & _ & _ & _ & Hids).
  split; [apply Hadd|]. rewrite Hids. vm_compute. reflexivity.
Defined.

(** X7 — The owner's authorization calls compose by last write: after
    [authorizePatient] then [deauthorizePatient] the address is not
    authorized, after [deauthorizePatient] then [authorizePatient] it is,
    and authorizing twice commits the same storage as authorizing once. *)
Theorem X7_authorization_last_write (s : State) (m1 m2 : Msg) (a : N) :
  msg_sender m1 = owner s →
  msg_sender m2 = owner s →
  a ≠ zero_address →
  authorized (run s [(m1, AuthorizePatient a); (m2, DeauthorizePatient a)]) a = false
  ∧ authorized (run s [(m1, DeauthorizePatient a); (m2, AuthorizePatient a)]) a = true
  ∧ run s [(m1, AuthorizePatient a); (m2, AuthorizePatient a)]
    = run s [(m1, AuthorizePatient a)].
Proof.
  intros H1 H2 Hnz. apply N.eqb_eq in H1, H2. apply N.eqb_neq in Hnz.
  cbn [run].
  rewrite !exec_authorizePatient, !exec_deauthorizePatient, H1, Hnz. cbn [fst].
  cbn [owner set_authorizedPatients]. rewrite H2. cbn [fst].
  unfold authorized, set_authorizedPatients. cbn [authorizedPatients].
  rewrite !lookup_insert_eq. split; [reflexivity|]. split; [reflexivity|].
  cbn. rewrite insert_insert_eq. reflexivity.
Qed.

Lemma X7_witness :
  authorized (run example_state [(mkMsg alice 200, AuthorizePatient carol);
                                 (mkMsg alice 201, DeauthorizePatient carol)]) carol
  = false
  ∧ authorized (run example_state [(mkMsg alice 200, DeauthorizePatient carol);
                                   (mkMsg alice 201, AuthorizePatient carol)]) carol
    = true.
Proof.
  destruct (X7_authorization_last_write example_state
              (mkMsg alice 200) (mkMsg alice 201) carol)
    as (H1 & H2 & _);
    [vm_compute; reflexivity | vm_compute; reflexivity | vm_compute; discriminate |].
  split; [exact H1|exact H2].
Defined.

(** X8 — [getMedicalRecord]: a caller that is neither the queried address
    nor the owner gets ["Only patient or owner can access"]; for the address
    itself or the owner an index at or beyond the count gets
    ["Invalid record index"], and an index below it returns the stored
    record as it is, active or not; no case writes the storage or emits an
    event. *)
Theorem X8_get_medical_record (s : State) (msg : Msg) (a i : N) :
  (msg_sender msg ≠ a → msg_sender msg ≠ owner s →
     execute s msg (GetMedicalRecord a i)
     = (s, Fail (Revert ERR_PATIENT_OR_OWNER)))
  ∧ (msg_sender msg = a ∨ msg_sender msg = owner s →
     count_of s a ≤ i →
     execute s msg (GetMedicalRecord a i) = (s, Fail (Revert ERR_INVALID_INDEX)))
  ∧ (msg_sender msg = a ∨ msg_sender msg = owner s →
     i < count_of s a →
     execute s msg (GetMedicalRecord a i) = (s, Ok (VRecord (record_at s a i), [])))
  ∧ error_kind (Revert ERR_PATIENT_OR_OWNER) = Some Unauthorized.
Proof.
  rewrite exec_getMedicalRecord. split; [|split; [|split; [|reflexivity]]].
  - intros Ha Ho. apply N.eqb_neq in Ha, Ho. rewrite Ha, Ho. reflexivity.
  - intros Hwho Hge.
    replace ((msg_sender msg =? a) || (msg_sender msg =? owner s)) with true
      by (symmetry; apply orb_true_iff;
          destruct Hwho as [->| ->]; [left|right]; apply N.eqb_refl).
    apply N.ltb_ge in Hge. rewrite Hge. reflexivity.
  - intros Hwho Hlt.
    replace ((msg_sender msg =? a) || (msg_sender msg =? owner s)) with true
      by (symmetry; apply orb_true_iff;
          destruct Hwho as [->| ->]; [left|right]; apply N.eqb_refl).
    apply N.ltb_lt in Hlt. rewrite Hlt. reflexivity.
Qed.

Lemma X8_witness :
  execute example_state (mkMsg carol 200) (GetMedicalRecord bob 0)
  = (example_state, Fail (Revert ERR_PATIENT_OR_OWNER))
  ∧ execute example_state (mkMsg bob 200) (GetMedicalRecord bob 3)
    = (example_state, Fail (Revert ERR_INVALID_INDEX))
  ∧ execute example_state (mkMsg alice 200) (GetMedicalRecord bob 1)
    = (example_state,
       Ok (VRecord (mkMedicalRecord "r2" "0xa2" "lab" 102 bob false "{}"), [])).
Proof.
  split; [|split].
  - destruct (X8_get_medical_record example_state (mkMsg carol 200) bob 0)
      as (H & _). apply H; vm_compute; discriminate.
  - destruct (X8_get_medical_record example_state (mkMsg bob 200) bob 3)
      as (_ & H & _). apply H; [left; reflexivity | vm_compute; discriminate].
  - destruct (X8_get_medical_record example_state (mkMsg alice 200) bob 1)
      as (_ & _ & H & _).
    rewrite H; [vm_compute; reflexivity | right; vm_compute; reflexivity
               | vm_compute; reflexivity].
Defined.

(** ** The id list of an address under the write operations *)

Section IdWindows.

Variables f g : nat → MedicalRecord.

Lemma ids_window_ext j n :
  (∀ k, (j ≤ k < j + n)%nat →
        isActive (g k) = isActive (f k) ∧ recordId (g k) = recordId (f k)) →
  List.map recordId (List.filter isActive (List.map g (seq j n)))
  = List.map recordId (List.filter isActive (List.map f (seq j n))).
Proof.
  revert j. induction n as [|n IH]; intros j Hsame; [reflexivity|].
  cbn [seq List.map List.filter].
  destruct (Hsame j ltac:(lia)) as [-> Hid].
  destruct (isActive (f j)); cbn [List.map];
    rewrite (IH (S j)) by (intros k Hk; apply Hsame; lia);
    [rewrite Hid|]; reflexivity.
Qed.

Lemma ids_window_in j n id :
  In id (List.map recordId (List.filter isActive (List.map f (seq j n)))) →
  ∃ k, (j ≤ k < j + n)%nat ∧ isActive (f k) = true ∧ recordId (f k) = id.
Proof.
  intros Hin. apply in_map_iff in Hin as (r & Hid & Hin).
  apply filter_In in Hin as [Hin Hact].
  apply in_map_iff in Hin as (k & <- & Hk). apply in_seq in Hk. eauto.
Qed.

Lemma ids_window_NoDup j n :
  (∀ k1 k2, (j ≤ k1 < j + n)%nat → (j ≤ k2 < j + n)%nat →
            recordId (f k1) = recordId (f k2) → k1 = k2) →
  List.NoDup (List.map recordId (List.filter isActive (List.map f (seq j n)))).
Proof.
  revert j. induction n as [|n IH]; intros j Hinj; [constructor|].
  cbn [seq List.map List.filter].
  assert (Hrest : List.NoDup
            (List.map recordId (List.filter isActive (List.map f (seq (S j) n)))))
    by (apply IH; intros k1 k2 H1 H2; apply Hinj; lia).
  destruct (isActive (f j)); [|exact Hrest].
  cbn [List.map]. constructor; [|exact Hrest].
  intros Hin. apply ids_window_in in Hin as (k & Hk & _ & Hid).
  assert (k = j) by (apply Hinj; [lia|lia|exact Hid]). lia.
Qed.

Lemma ids_window_switch_off i0 j n :
  (∀ k, k ≠ i0 → g k = f k) →
  isActive (g i0) = false →
  (∀ k, (j ≤ k < j + n)%nat → k ≠ i0 → recordId (f k) ≠ recordId (f i0)) →
  List.map recordId (List.filter isActive (List.map g (seq j n)))
  = List.filter (λ x, negb (String.eqb x (recordId (f i0))))
      (List.map recordId (List.filter isActive (List.map f (seq j n)))).
Proof.
  intros Hother Hoff. revert j. induction n as [|n IH]; intros j Hdiff;
    [reflexivity|].
  cbn [seq List.map List.filter].
  pose proof (IH (S j) ltac:(intros k Hk; apply Hdiff; lia)) as IHj.
  destruct (decide (j = i0)) as [->|Hj].
  - rewrite Hoff. destruct (isActive (f i0)); [|exact IHj].
    cbn [List.map List.filter]. rewrite String.eqb_refl. exact IHj.
  - rewrite (Hother j Hj). destruct (isActive (f j)); [|exact IHj].
    cbn [List.map List.filter].
    pose proof (Hdiff j ltac:(lia) Hj) as Hne.
    apply String.eqb_neq in Hne. rewrite Hne. cbn [negb]. rewrite IHj.
    reflexivity.
Qed.

End IdWindows.

Lemma filter_out_length (l : list string) (x : string) :
  List.NoDup l → In x l →
  S (length (List.filter (λ y, negb (String.eqb y x)) l)) = length l.
Proof.
  induction l as [|y l IH]; intros Hnd Hin; [destruct Hin|].
  apply NoDup_cons_iff in Hnd as [Hy Hnd]. cbn [List.filter].
  destruct (String.eqb y x) eqn:E; cbn [negb length].
  - apply String.eqb_eq in E as ->. f_equal.
    clear IH Hin. induction l as [|z l IHl]; [reflexivity|].
    apply NoDup_cons_iff in Hnd as [_ Hnd].
    cbn [List.filter]. destruct (String.eqb z x) eqn:Ez; cbn [negb length].
    + apply String.eqb_eq in Ez as ->. exfalso. apply Hy. left. reflexivity.
    + f_equal. apply IHl; [|exact Hnd]. intros Hin. apply Hy. right. exact Hin.
  - f_equal. apply IH; [exact Hnd|].
    destruct Hin as [->|Hin]; [|exact Hin].
    rewrite String.eqb_refl in E. discriminate.
Qed.

Lemma active_ids_NoDup s a : ledger_inv s → List.NoDup (active_ids s a).
Proof.
  intros Hinv. unfold active_ids, records_of. apply ids_window_NoDup.
  intros k1 k2 H1 H2 Hid.
  destruct (inv_unique s Hinv a (N.of_nat k1) a (N.of_nat k2)) as [_ Hk];
    [lia|lia|exact Hid|lia].
Qed.

Lemma active_ids_add_post msg id h t m s a :
  active_ids (add_post msg id h t m s) a =
    if decide (msg_sender msg = a) then active_ids s a ++ [id] else active_ids s a.
Proof.
  unfold active_ids, records_of. rewrite count_of_add_post.
  destruct (decide (msg_sender msg = a)) as [<-|Hne].
  - replace (N.to_nat (count_of s (msg_sender msg) + 1))
      with (S (N.to_nat (count_of s (msg_sender msg)))) by lia.
    rewrite seq_S, List.map_app, List.filter_app, List.map_app. cbn [Nat.add].
    f_equal.
    + apply ids_window_ext. intros k Hk.
      destruct (add_post_keeps_slot msg id h t m s (msg_sender msg) (N.of_nat k))
        as [_ ->]; [lia|]. split; reflexivity.
    + cbn [List.map List.filter]. rewrite record_at_add_post, N2Nat.id.
      rewrite decide_True by reflexivity. reflexivity.
  - apply ids_window_ext. intros k Hk. rewrite record_at_add_post.
    rewrite decide_False by congruence. split; reflexivity.
Qed.

Lemma active_ids_update_post msg i h m s a :
  active_ids (update_post msg i h m s) a = active_ids s a.
Proof.
  unfold active_ids, records_of.
  change (count_of (update_post msg i h m s) a) with (count_of s a).
  apply ids_window_ext. intros k Hk. rewrite record_at_update_post.
  destruct (decide _); split; reflexivity.
Qed.

Lemma active_ids_deactivate_post_other msg i s a :
  msg_sender msg ≠ a →
  active_ids (deactivate_post msg i s) a = active_ids s a.
Proof.
  intros Hne. unfold active_ids, records_of.
  change (count_of (deactivate_post msg i s) a) with (count_of s a).
  apply ids_window_ext. intros k Hk. rewrite record_at_deactivate_post.
  rewrite decide_False by congruence. split; reflexivity.
Qed.

Lemma active_ids_deactivate_post msg i s :
  ledger_inv s →
  i < count_of s (msg_sender msg) →
  active_ids (deactivate_post msg i s) (msg_sender msg)
  = List.filter
      (λ x, negb (String.eqb x (recordId (record_at s (msg_sender msg) i))))
      (active_ids s (msg_sender msg)).
Proof.
  intros Hinv Hlt. unfold active_ids, records_of.
  change (count_of (deactivate_post msg i s) (msg_sender msg))
    with (count_of s (msg_sender msg)).
  replace (record_at s (msg_sender msg) i)
    with (record_at s (msg_sender msg) (N.of_nat (N.to_nat i)))
    by (rewrite N2Nat.id; reflexivity).
  apply (ids_window_switch_off
           (λ k, record_at s (msg_sender msg) (N.of_nat k))
           (λ k, record_at (deactivate_post msg i s) (msg_sender msg) (N.of_nat k))
           (N.to_nat i)).
  - intros k Hk. rewrite record_at_deactivate_post.
    rewrite decide_False; [reflexivity|]. intros [= Hi]. lia.
  - rewrite record_at_deactivate_post, N2Nat.id.
    rewrite decide_True by reflexivity. reflexivity.
  - intros k Hk Hki Hid. rewrite N2Nat.id in Hid.
    destruct (inv_unique s Hinv (msg_sender msg) (N.of_nat k) (msg_sender msg) i)
      as [_ Hk']; [lia|exact Hlt|exact Hid|lia].
Qed.

(** X9 — [getPatientRecordIds]: a caller that is neither the queried
    address nor the owner gets ["Only patient or owner can access"].  In a
    reachable state the list returned to the address or the owner has no
    repeated id, is no longer than the count, shares no id with the list of
    another address, and is empty for an address that never stored a
    record. *)
Theorem X9_record_ids_shape (s : State) (msg : Msg) (a : N) :
  reachable s →
  (msg_sender msg ≠ a → msg_sender msg ≠ owner s →
     execute s msg (GetPatientRecordIds a)
     = (s, Fail (Revert ERR_PATIENT_OR_OWNER)))
  ∧ (msg_sender msg = a ∨ msg_sender msg = owner s →
     execute s msg (GetPatientRecordIds a)
     = (s, Ok (VStrings (active_ids s a), [])))
  ∧ List.NoDup (active_ids s a)
  ∧ N.of_nat (length (active_ids s a)) ≤ count_of s a
  ∧ (∀ b id, In id (active_ids s a) → In id (active_ids s b) → a = b)
  ∧ (count_of s a = 0 → active_ids s a = []).
Proof.
  intros Hr. pose proof (ledger_inv_reachable s Hr) as Hinv.
  split; [|split; [|split; [|split; [|split]]]].
  - intros Ha Ho. apply exec_getPatientRecordIds_denied.
    apply N.eqb_neq in Ha, Ho. rewrite Ha, Ho. reflexivity.
  - intros Hwho.
    rewrite exec_getPatientRecordIds by (by apply reachable_count_bounded).
    replace ((msg_sender msg =? a) || (msg_sender msg =? owner s)) with true;
      [reflexivity|].
    symmetry. apply orb_true_iff.
    destruct Hwho as [->| ->]; [left|right]; apply N.eqb_refl.
  - by apply active_ids_NoDup.
  - unfold active_ids. rewrite length_map.
    pose proof (filter_length_le isActive (records_of s a)) as Hle.
    rewrite records_of_length in Hle. lia.
  - intros b id Ha Hb.
    apply active_ids_spec in Ha as (i & Hi & _ & Hida).
    apply active_ids_spec in Hb as (j & Hj & _ & Hidb).
    destruct (inv_unique s Hinv a i b j Hi Hj) as [Hab _]; congruence.
  - intros Hz. unfold active_ids, records_of. rewrite Hz. reflexivity.
Qed.

Lemma X9_witness :
  execute example_state (mkMsg carol 200) (GetPatientRecordIds bob)
  = (example_state, Fail (Revert ERR_PATIENT_OR_OWNER))
  ∧ execute example_state (mkMsg alice 200) (GetPatientRecordIds bob)
    = (example_state, Ok (VStrings ["r1"; "r3"], []))
  ∧ active_ids example_state carol = [].
Proof.
  destruct (X9_record_ids_shape example_state (mkMsg carol 200) bob
              example_state_reachable) as (Hden & _).
  destruct (X9_record_ids_shape example_state (mkMsg alice 200) bob
              example_state_reachable) as (_ & Hok & _).
  destruct (X9_record_ids_shape example_state (mkMsg alice 200) carol
              example_state_reachable) as (_ & _ & _ & _ & _ & Hnone).
  split; [apply Hden; vm_compute; discriminate|].
  split; [|apply Hnone; vm_compute; reflexivity].
  rewrite Hok by (right; vm_compute; reflexivity). vm_compute. reflexivity.
Defined.

(** X10 — A successful [addMedicalRecord] appends its id at the end of the
    caller's id list and leaves the id list of every other address as it
    was. *)
Theorem X10_add_appends_id (s s' : State) (msg : Msg) (id h t m : string)
    (out : RetVal * list Event) :
  execute s msg (AddMedicalRecord id h t m) = (s', Ok out) →
  active_ids s' (msg_sender msg) = active_ids s (msg_sender msg) ++ [id]
  ∧ (∀ b, b ≠ msg_sender msg → active_ids s' b = active_ids s b).
Proof.
  rewrite exec_addMedicalRecord. case_if; intros [= <- _].
  split.
  - rewrite active_ids_add_post, decide_True by reflexivity. reflexivity.
  - intros b Hb. rewrite active_ids_add_post, decide_False by congruence.
    reflexivity.
Qed.

Lemma X10_witness :
  active_ids (add_post (mkMsg bob 200) "r4" "0xa4" "lab" "{}" example_state) bob
  = active_ids example_state bob ++ ["r4"].
Proof.
  assert (Hex : execute example_state (mkMsg bob 200)
                  (AddMedicalRecord "r4" "0xa4" "lab" "{}")
                = (add_post (mkMsg bob 200) "r4" "0xa4" "lab" "{}" example_state,
                   Ok (VBool true, [MedicalRecordAdded bob "r4" "lab" 200 bob])))
    by (vm_compute; reflexivity).
  destruct (X10_add_appends_id _ _ _ _ _ _ _ _ Hex) as (H & _). exact H.
Defined.

(** X11 — In a reachable state a successful [deactivateMedicalRecord]
    removes exactly the id of the targeted record from the caller's id
    list: the other ids stay, in their order, the list gets one shorter,
    and the id lists of the other addresses are as before. *)
Theorem X11_deactivate_removes_id (s s' : State) (msg : Msg) (i : N)
    (out : RetVal * list Event) :
  reachable s →
  execute s msg (DeactivateMedicalRecord i) = (s', Ok out) →
  active_ids s' (msg_sender msg)
  = List.filter
      (λ x, negb (String.eqb x (recordId (record_at s (msg_sender msg) i))))
      (active_ids s (msg_sender msg))
  ∧ In (recordId (record_at s (msg_sender msg) i)) (active_ids s (msg_sender msg))
  ∧ ¬ In (recordId (record_at s (msg_sender msg) i)) (active_ids s' (msg_sender msg))
  ∧ S (length (active_ids s' (msg_sender msg)))
    = length (active_ids s (msg_sender msg))
  ∧ (∀ b, b ≠ msg_sender msg → active_ids s' b = active_ids s b).
Proof.
  intros Hr. pose proof (ledger_inv_reachable s Hr) as Hinv.
  rewrite exec_deactivateMedicalRecord.
  destruct (passes_gate s (msg_sender msg)); [|discriminate].
  destruct (i <? count_of s (msg_sender msg)) eqn:Hlt; [|discriminate].
  destruct (isActive (record_at s (msg_sender msg) i)) eqn:Hact; [|discriminate].
  intros [= <- _]. apply N.ltb_lt in Hlt.
  assert (Hin : In (recordId (record_at s (msg_sender msg) i))
                   (active_ids s (msg_sender msg))).
  { apply active_ids_spec. exists i. repeat split; assumption. }
  rewrite (active_ids_deactivate_post msg i s Hinv Hlt).
  split; [reflexivity|]. split; [exact Hin|]. split; [|split].
  - intros Hin'. apply filter_In in Hin' as [_ Hneq].
    rewrite String.eqb_refl in Hneq. discriminate.
  - apply filter_out_length; [by apply active_ids_NoDup|exact Hin].
  - intros b Hb. apply active_ids_deactivate_post_other. congruence.
Qed.

Lemma X11_witness :
  active_ids (deactivate_post (mkMsg bob 200) 0 example_state) bob = ["r3"].
Proof.
  assert (Hex : execute example_state (mkMsg bob 200) (DeactivateMedicalRecord 0)
                = (deactivate_post (mkMsg bob 200) 0 example_state,
                   Ok (VBool true, [MedicalRecordDeactivated bob "r1" 200])))
    by (vm_compute; reflexivity).
  destruct (X11_deactivate_removes_id _ _ _ _ _ example_state_reachable Hex)
    as (H & _).
  etransitivity; [exact H|vm_compute; reflexivity].
Defined.

(** ** Who can change what *)

Lemma run_preserves (P : State → Prop) :
  (∀ s msg c s', effect s msg c s' → P s → P s') →
  ∀ tr s, P s → P (run s tr).
Proof.
  intros Hstep tr. induction tr as [|[msg c] tr IH]; intros s Hs; cbn [run];
    [exact Hs|].
  apply IH. eapply Hstep; [apply execute_effect|exact Hs].
Qed.

(** X12 — Only [addMedicalRecord] and [deactivateMedicalRecord] change an
    id list, and only the caller's: a call by another address, and every
    other function ([updateMedicalRecord] included), leaves the id list of
    [a] as it was. *)
Theorem X12_id_list_frame (s : State) (msg : Msg) (c : Call) (a : N) :
  msg_sender msg ≠ a
  ∨ ((∀ id h t m, c ≠ AddMedicalRecord id h t m)
     ∧ (∀ i, c ≠ DeactivateMedicalRecord i)) →
  active_ids (fst (execute s msg c)) a = active_ids s a.
Proof.
  intros Hcase. destruct (execute_effect s msg c); try reflexivity.
  - rewrite active_ids_add_post.
    destruct (decide (msg_sender msg = a)) as [Heq|]; [|reflexivity].
    destruct Hcase as [Hne|[Hadd _]]; [congruence|].
    exfalso. by eapply Hadd.
  - apply active_ids_update_post.
  - destruct Hcase as [Hne|[_ Hoff]].
    + by apply active_ids_deactivate_post_other.
    + exfalso. by eapply Hoff.
Qed.

Lemma X12_witness :
  active_ids (fst (execute example_state (mkMsg bob 200)
                     (UpdateMedicalRecord 0 "0xbb" "{x}"))) bob
  = active_ids example_state bob
  ∧ active_ids (fst (execute example_state (mkMsg alice 200)
                       (AddMedicalRecord "r9" "0xff" "lab" "{}"))) bob
    = active_ids example_state bob.
Proof.
  split.
  - apply X12_id_list_frame. right. split; intros; discriminate.
  - apply X12_id_list_frame. left. vm_compute. discriminate.
Defined.

(** X13 — Records are only ever written under the caller's own address:
    whatever the call and whoever the caller (the owner included), the
    slots and the count of every other address are unchanged. *)
Theorem X13_records_isolated (s : State) (msg : Msg) (c : Call) (b : N) :
  b ≠ msg_sender msg →
  (∀ j, patientRecords (fst (execute s msg c)) !! (b, j)
        = patientRecords s !! (b, j))
  ∧ patientRecordCount (fst (execute s msg c)) !! b = patientRecordCount s !! b
  ∧ count_of (fst (execute s msg c)) b = count_of s b.
Proof.
  intros Hb. destruct (execute_effect s msg c); try (repeat split; reflexivity).
  - unfold count_of, add_post. cbn [patientRecords patientRecordCount].
    rewrite lookup_insert_ne by congruence. split; [|split; reflexivity].
    intros j. apply lookup_insert_ne. congruence.
  - split; [|split; reflexivity]. intros j. unfold update_post.
    cbn [patientRecords set_patientRecords]. apply lookup_insert_ne. congruence.
  - split; [|split; reflexivity]. intros j. unfold deactivate_post.
    cbn [patientRecords set_patientRecords]. apply lookup_insert_ne. congruence.
Qed.

Lemma X13_witness :
  count_of (fst (execute example_state (mkMsg alice 200)
                   (AddMedicalRecord "r9" "0xff" "lab" "{}"))) bob
  = count_of example_state bob.
Proof.
  destruct (X13_records_isolated example_state (mkMsg alice 200)
              (AddMedicalRecord "r9" "0xff" "lab" "{}") bob) as (_ & _ & H);
    [vm_compute; discriminate|exact H].
Defined.

(** X14 — The owner, the authorization set and the registry link are out
    of reach of everybody else: no call by an address other than the owner
    changes any of the three.  The owner itself changes only through
    [transferOwnership]. *)
Theorem X14_admin_state_owner_only (s : State) (msg : Msg) (c : Call) :
  (msg_sender msg ≠ owner s →
     owner (fst (execute s msg c)) = owner s
     ∧ authorizedPatients (fst (execute s msg c)) = authorizedPatients s
     ∧ patientRegistryContract (fst (execute s msg c)) = patientRegistryContract s)
  ∧ ((∀ a, c ≠ TransferOwnership a) →
     owner (fst (execute s msg c)) = owner s).
Proof.
  split.
  - intros Hno. destruct (execute_effect s msg c);
      try (repeat split; reflexivity); congruence.
  - intros Hc. destruct (execute_effect s msg c); try reflexivity.
    exfalso. by eapply Hc.
Qed.

Lemma X14_witness :
  owner (fst (execute example_state (mkMsg bob 200) (TransferOwnership bob)))
  = owner example_state
  ∧ authorizedPatients (fst (execute example_state (mkMsg bob 200)
                               (AuthorizePatient carol)))
    = authorizedPatients example_state.
Proof.
  split.
  - destruct (X14_admin_state_owner_only example_state (mkMsg bob 200)
                (TransferOwnership bob)) as (H & _).
    destruct H as (Ho & _); [vm_compute; discriminate|exact Ho].
  - destruct (X14_admin_state_owner_only example_state (mkMsg bob 200)
                (AuthorizePatient carol)) as (H & _).
    destruct H as (_ & Ha & _); [vm_compute; discriminate|exact Ha].
Defined.

(** X15 — The contract always has an owner: deployed by a non-zero
    address, no history of calls makes the owner the zero address. *)
Theorem X15_owner_never_zero (deploy : Msg) (tr : list (Msg * Call)) :
  msg_sender deploy ≠ zero_address →
  owner (run (constructor deploy) tr) ≠ zero_address.
Proof.
  intros Hd.
  apply (run_preserves (λ s, owner s ≠ zero_address)); [|exact Hd].
  intros s msg c s' He Hs. destruct He; try exact Hs. assumption.
Qed.

Lemma X15_witness : owner example_state ≠ zero_address.
Proof.
  apply (X15_owner_never_zero (mkMsg alice 99) example_history).
  vm_compute. discriminate.
Defined.

(** ** What never changes in a stored record *)

Lemma effect_keeps_identity s msg c s' a i :
  effect s msg c s' →
  i < count_of s a →
  i < count_of s' a
  ∧ recordId (record_at s' a i) = recordId (record_at s a i)
  ∧ recordType (record_at s' a i) = recordType (record_at s a i)
  ∧ timestamp (record_at s' a i) = timestamp (record_at s a i)
  ∧ uploadedBy (record_at s' a i) = uploadedBy (record_at s a i).
Proof.
  intros He Hlt. destruct He; try (repeat split; assumption).
  - destruct (add_post_keeps_slot msg id h t m s a i Hlt) as [Hlt' ->].
    repeat split; assumption.
  - split; [exact Hlt|]. rewrite record_at_update_post.
    destruct (decide _); repeat split; reflexivity.
  - split; [exact Hlt|]. rewrite record_at_deactivate_post.
    destruct (decide _); repeat split; reflexivity.
Qed.

(** X16 — A stored record keeps its identity for ever: through every
    history of calls it stays stored at its index and its [recordId],
    [recordType], [timestamp] and [uploadedBy] are the ones it was created
    with. *)
Theorem X16_record_identity_immutable (s : State) (a i : N)
    (tr : list (Msg * Call)) :
  i < count_of s a →
  i < count_of (run s tr) a
  ∧ recordId (record_at (run s tr) a i) = recordId (record_at s a i)
  ∧ recordType (record_at (run s tr) a i) = recordType (record_at s a i)
  ∧ timestamp (record_at (run s tr) a i) = timestamp (record_at s a i)
  ∧ uploadedBy (record_at (run s tr) a i) = uploadedBy (record_at s a i).
Proof.
  intros Hlt.
  apply (run_preserves
           (λ s', i < count_of s' a
                  ∧ recordId (record_at s' a i) = recordId (record_at s a i)
                  ∧ recordType (record_at s' a i) = recordType (record_at s a i)
                  ∧ timestamp (record_at s' a i) = timestamp (record_at s a i)
                  ∧ uploadedBy (record_at s' a i) = uploadedBy (record_at s a i)));
    [|repeat split; assumption].
  intros s1 msg c s2 He (Hlt1 & Hid & Hty & Hts & Hby).
  destruct (effect_keeps_identity s1 msg c s2 a i He Hlt1)
    as (Hlt2 & Hid2 & Hty2 & Hts2 & Hby2).
  repeat split; congruence.
Qed.

Lemma X16_witness :
  recordId (record_at
              (run example_state
                 [ (mkMsg bob 200, UpdateMedicalRecord 0 "0xbb" "{x}");
                   (mkMsg bob 201, DeactivateMedicalRecord 0) ])
              bob 0)
  = recordId (record_at example_state bob 0).
Proof.
  destruct (X16_record_identity_immutable example_state bob 0
              [ (mkMsg bob 200, UpdateMedicalRecord 0 "0xbb" "{x}");
                (mkMsg bob 201, DeactivateMedicalRecord 0) ])
    as (_ & H & _); [vm_compute; reflexivity|exact H].
Defined.

(** X17 — In every reachable state a record stored under [a] was uploaded
    by [a], and the mapping holds nothing at or beyond the count of an
    address: such a slot reads as the zero record, which is inactive. *)
Theorem X17_stored_slots (deploy : Msg) (tr : list (Msg * Call)) (a i : N) :
  (i < count_of (run (constructor deploy) tr) a →
     uploadedBy (record_at (run (constructor deploy) tr) a i) = a)
  ∧ (count_of (run (constructor deploy) tr) a ≤ i →
     patientRecords (run (constructor deploy) tr) !! (a, i) = None
     ∧ record_at (run (constructor deploy) tr) a i = zero_record).
Proof.
  assert (H : ∀ b j,
            (j < count_of (run (constructor deploy) tr) b →
               uploadedBy (record_at (run (constructor deploy) tr) b j) = b)
            ∧ (count_of (run (constructor deploy) tr) b ≤ j →
               patientRecords (run (constructor deploy) tr) !! (b, j) = None)).
  { apply (run_preserves
             (λ s, ∀ b j,
                (j < count_of s b → uploadedBy (record_at s b j) = b)
                ∧ (count_of s b ≤ j → patientRecords s !! (b, j) = None))).
    - intros s msg c s' He Hs b j. destruct (Hs b j) as [Hby Hnone].
      destruct He; try (split; assumption).
      + rewrite record_at_add_post, count_of_add_post.
        unfold add_post. cbn [patientRecords].
        destruct (decide ((msg_sender msg, count_of s (msg_sender msg)) = (b, j)))
          as [[= <- <-]|Hslot].
        * rewrite decide_True by reflexivity.
          split; [reflexivity|lia].
        * rewrite lookup_insert_ne by exact Hslot.
          destruct (decide (msg_sender msg = b)) as [<-|].
          -- split; intros Hj; [apply Hby|apply Hnone; lia].
             assert (j ≠ count_of s (msg_sender msg)) by congruence. lia.
          -- split; assumption.
      + rewrite record_at_update_post.
        unfold update_post. cbn [patientRecords set_patientRecords].
        change (count_of (set_patientRecords _ s) b) with (count_of s b).
        destruct (decide ((msg_sender msg, i0) = (b, j))) as [[= <- <-]|Hslot].
        * split; [exact Hby|lia].
        * rewrite lookup_insert_ne by exact Hslot. split; assumption.
      + rewrite record_at_deactivate_post.
        unfold deactivate_post. cbn [patientRecords set_patientRecords].
        change (count_of (set_patientRecords _ s) b) with (count_of s b).
        destruct (decide ((msg_sender msg, i0) = (b, j))) as [[= <- <-]|Hslot].
        * split; [exact Hby|lia].
        * rewrite lookup_insert_ne by exact Hslot. split; assumption.
    - intros b j. unfold count_of, constructor. cbn [patientRecords patientRecordCount].
      rewrite !lookup_empty. cbn. split; [lia|reflexivity]. }
  destruct (H a i) as [Hby Hnone]. split; [exact Hby|].
  intros Hge. split; [by apply Hnone|].
  unfold record_at. rewrite (Hnone Hge). reflexivity.
Qed.

Lemma X17_witness :
  uploadedBy (record_at example_state bob 2) = bob
  ∧ record_at example_state bob 3 = zero_record.
Proof.
  destruct (X17_stored_slots (mkMsg alice 99) example_history bob 2) as (H2 & _).
  destruct (X17_stored_slots (mkMsg alice 99) example_history bob 3) as (_ & H3).
  split.
  - apply H2. vm_compute. reflexivity.
  - apply H3. vm_compute. discriminate.
Defined.

Lemma effect_keeps_inactive_record s msg c s' a i :
  effect s msg c s' →
  i < count_of s a →
  isActive (record_at s a i) = false →
  i < count_of s' a ∧ patientRecords s' !! (a, i) = patientRecords s !! (a, i).
Proof.
  intros He Hlt Hoff. destruct He; try (split; [assumption|reflexivity]).
  - split; [by apply add_post_keeps_slot|].
    unfold add_post. cbn [patientRecords]. apply lookup_insert_ne.
    intros [= <- <-]. lia.
  - split; [exact Hlt|]. unfold update_post.
    cbn [patientRecords set_patientRecords]. apply lookup_insert_ne.
    intros [= <- <-]. congruence.
  - split; [exact Hlt|]. unfold deactivate_post.
    cbn [patientRecords set_patientRecords]. apply lookup_insert_ne.
    intros [= <- <-]. congruence.
Qed.

(** X18 — A deactivated record is frozen: through every history of calls
    its slot is never written again, so all seven fields, the data hash and
    the metadata included, stay as they were when it was deactivated. *)
Theorem X18_inactive_record_frozen (s : State) (a i : N) (tr : list (Msg * Call)) :
  i < count_of s a →
  isActive (record_at s a i) = false →
  patientRecords (run s tr) !! (a, i) = patientRecords s !! (a, i)
  ∧ record_at (run s tr) a i = record_at s a i.
Proof.
  intros Hlt Hoff.
  assert (H : i < count_of (run s tr) a
              ∧ patientRecords (run s tr) !! (a, i) = patientRecords s !! (a, i)).
  { apply (run_preserves
             (λ s', i < count_of s' a
                    ∧ patientRecords s' !! (a, i) = patientRecords s !! (a, i)));
      [|split; [exact Hlt|reflexivity]].
    intros s1 msg c s2 He [Hlt1 Hsame].
    assert (Hoff1 : isActive (record_at s1 a i) = false)
      by (unfold record_at in *; rewrite Hsame; exact Hoff).
    destruct (effect_keeps_inactive_record s1 msg c s2 a i He Hlt1 Hoff1)
      as [Hlt2 Hsame2].
    split; [exact Hlt2|congruence]. }
  destruct H as [_ H]. split; [exact H|]. unfold record_at. rewrite H. reflexivity.
Qed.

Lemma X18_witness :
  record_at (run example_state
               [ (mkMsg bob 200, UpdateMedicalRecord 1 "0xbb" "{x}");
                 (mkMsg bob 201, AddMedicalRecord "r4" "0xa4" "lab" "{}");
                 (mkMsg alice 202, DeauthorizePatient bob) ])
            bob 1
  = record_at example_state bob 1.
Proof.
  apply X18_inactive_record_frozen; vm_compute; reflexivity.
Defined.

(** X19 — An id is spent for ever: once marked used it stays marked
    through every history, even after its record is deactivated, so every
    later [addMedicalRecord] with that id, by any caller, fails and commits
    nothing. *)
Theorem X19_id_never_reusable (s : State) (id : string) (tr : list (Msg * Call)) :
  id_used s id = true →
  id_used (run s tr) id = true
  ∧ (∀ msg h t m,
       ∃ f, execute (run s tr) msg (AddMedicalRecord id h t m)
            = (run s tr, Fail f)).
Proof.
  intros Hu.
  assert (H : id_used (run s tr) id = true).
  { apply (run_preserves (λ s', id_used s' id = true)); [|exact Hu].
    intros s1 msg c s2 He H1. destruct He; try exact H1.
    rewrite id_used_add_post. destruct (decide _); [reflexivity|exact H1]. }
  split; [exact H|]. intros msg h t m.
  rewrite exec_addMedicalRecord, H. case_if; eauto.
Qed.

Lemma X19_witness :
  ∃ f,
    execute (run example_state [(mkMsg bob 200, DeactivateMedicalRecord 0)])
      (mkMsg alice 201) (AddMedicalRecord "r1" "0xff" "lab" "{}")
    = (run example_state [(mkMsg bob 200, DeactivateMedicalRecord 0)], Fail f).
Proof.
  destruct (X19_id_never_reusable example_state "r1"
              [(mkMsg bob 200, DeactivateMedicalRecord 0)]) as (_ & H);
    [vm_compute; reflexivity|].
  apply H.
Defined.

(** ** Granting access *)

(** X20 — Authorizing opens the gate: right after the owner's
    [authorizePatient] of a non-zero address, that address passes the gate
    of the write operations, and its [addMedicalRecord] with an unused
    non-empty id and a non-empty hash returns [true] and stores the record
    under the address (the counters being below [2^256 - 1]). *)
Theorem X20_authorized_patient_can_add (s : State) (msg msg' : Msg)
    (id h t m : string) :
  msg_sender msg = owner s →
  msg_sender msg' ≠ zero_address →
  nonempty id = true → nonempty h = true →
  id_used s id = false →
  count_of s (msg_sender msg') < MAX_UINT256 →
  totalRecordsStored s < MAX_UINT256 →
  let s1 := fst (execute s msg (AuthorizePatient (msg_sender msg'))) in
  passes_gate s1 (msg_sender msg') = true
  ∧ snd (execute s1 msg' (AddMedicalRecord id h t m))
    = Ok (VBool true,
          [MedicalRecordAdded (msg_sender msg') id t (block_timestamp msg')
             (msg_sender msg')])
  ∧ record_at (fst (execute s1 msg' (AddMedicalRecord id h t m)))
      (msg_sender msg') (count_of s (msg_sender msg'))
    = mkMedicalRecord id h t (block_timestamp msg') (msg_sender msg') true m.
Proof.
  intros Ho Hnz Hid Hh Hu Hc Ht s1. subst s1.
  rewrite exec_authorizePatient.
  apply N.eqb_eq in Ho. apply N.eqb_neq in Hnz. rewrite Ho, Hnz. cbn [fst].
  assert (Hg : passes_gate (set_authorizedPatients <[msg_sender msg' := true]> s)
                 (msg_sender msg') = true).
  { unfold passes_gate, authorized. cbn [authorizedPatients set_authorizedPatients].
    rewrite lookup_insert_eq. reflexivity. }
  split; [exact Hg|].
  rewrite (add_succeeds _ msg' id h t m Hg Hid Hh Hu Hc Ht). cbn [fst snd].
  split; [reflexivity|].
  rewrite record_at_add_post, count_of_set_authorizedPatients.
  rewrite decide_True by reflexivity. reflexivity.
Qed.

Lemma X20_witness :
  snd (execute (fst (execute example_state (mkMsg alice 200) (AuthorizePatient carol)))
         (mkMsg carol 201) (AddMedicalRecord "c1" "0xc1" "lab" "{}"))
  = Ok (VBool true, [MedicalRecordAdded carol "c1" "lab" 201 carol]).
Proof.
  destruct (X20_authorized_patient_can_add example_state (mkMsg alice 200)
              (mkMsg carol 201) "c1" "0xc1" "lab" "{}") as (_ & H & _);
    [ vm_compute; reflexivity | vm_compute; discriminate
    | vm_compute; reflexivity | vm_compute; reflexivity
    | vm_compute; reflexivity | vm_compute; reflexivity
    | vm_compute; reflexivity | exact H ].
Defined.

(** X21 — The new owner takes over at once: after [transferOwnership] to
    a non-zero address, that address is the owner, passes the gate of the
    write operations, its [authorizePatient] of a non-zero address returns
    [true], and it can read every stored record of every address; the
    records, counts and authorization set are not touched by the
    transfer. *)
Theorem X21_new_owner_takes_over (s : State) (msg : Msg) (a : N) :
  msg_sender msg = owner s →
  a ≠ zero_address →
  let s' := fst (execute s msg (TransferOwnership a)) in
  owner s' = a
  ∧ passes_gate s' a = true
  ∧ patientRecords s' = patientRecords s
  ∧ patientRecordCount s' = patientRecordCount s
  ∧ authorizedPatients s' = authorizedPatients s
  ∧ (∀ msg' b,
       msg_sender msg' = a → b ≠ zero_address →
       snd (execute s' msg' (AuthorizePatient b))
       = Ok (VBool true, [PatientAuthorized b (block_timestamp msg')]))
  ∧ (∀ msg' p i,
       msg_sender msg' = a → i < count_of s p →
       execute s' msg' (GetMedicalRecord p i)
       = (s', Ok (VRecord (record_at s p i), []))).
Proof.
  intros Ho Hnz s'. subst s'. rewrite exec_transferOwnership.
  apply N.eqb_eq in Ho. apply N.eqb_neq in Hnz as Hnz'. rewrite Ho, Hnz'.
  cbn [fst]. split; [reflexivity|]. split.
  { unfold passes_gate. cbn [owner set_owner]. rewrite N.eqb_refl.
    apply orb_true_r. }
  split; [reflexivity|]. split; [reflexivity|]. split; [reflexivity|]. split.
  - intros msg' b Hmsg' Hb. rewrite exec_authorizePatient.
    cbn [owner set_owner]. rewrite Hmsg', N.eqb_refl.
    apply N.eqb_neq in Hb. rewrite Hb. reflexivity.
  - intros msg' p i Hmsg' Hlt. rewrite exec_getMedicalRecord.
    cbn [owner set_owner]. rewrite Hmsg', N.eqb_refl, orb_true_r.
    change (count_of (set_owner a s) p) with (count_of s p).
    apply N.ltb_lt in Hlt. rewrite Hlt. reflexivity.
Qed.

Lemma X21_witness :
  execute (fst (execute example_state (mkMsg alice 200) (TransferOwnership carol)))
    (mkMsg carol 201) (GetMedicalRecord bob 0)
  = (fst (execute example_state (mkMsg alice 200) (TransferOwnership carol)),
     Ok (VRecord (record_at example_state bob 0), [])).
Proof.
  destruct (X21_new_owner_takes_over example_state (mkMsg alice 200) carol)
    as (_ & _ & _ & _ & _ & _ & H);
    [vm_compute; reflexivity | vm_compute; discriminate |].
  apply H; [reflexivity | vm_compute; reflexivity].
Defined.

(** ** The registry link is only stored *)




(** ** Checked arithmetic never trips *)

(** X23 — No panic: in a state reached from deployment by fewer than
    [2^256 - 1] transactions, no call fails with a [Panic]: the checked
    increments of [addMedicalRecord] and of the loops of
    [getPatientRecordIds] do not overflow and the array writes of
    [getPatientRecordIds] stay in bounds; a call then either returns or
    reverts with one of the contract's messages. *)
Theorem X23_no_panic (deploy : Msg) (tr : list (Msg * Call)) (msg : Msg) (c : Call) :
  N.of_nat (length tr) < MAX_UINT256 →
  (∀ code, snd (execute (run (constructor deploy) tr) msg c) ≠ Fail (Panic code))
  ∧ ((∃ out, snd (execute (run (constructor deploy) tr) msg c) = Ok out)
     ∨ (∃ reason k,
          snd (execute (run (constructor deploy) tr) msg c) = Fail (Revert reason)
          ∧ error_kind (Revert reason) = Some k)).
Proof.
  intros Hlen.
  pose proof (ledger_inv_run tr _ (ledger_inv_constructor deploy)) as Hinv.
  pose proof (total_le_history tr (constructor deploy)) as Htot.
  cbn [constructor totalRecordsStored] in Htot.
  set (s := run (constructor deploy) tr) in *.
  assert (Hroom : totalRecordsStored s < MAX_UINT256) by lia.
  assert (Hcnt : ∀ a, count_of s a < MAX_UINT256).
  { intros a. pose proof (count_of_le_sum s a). pose proof (inv_total s Hinv). lia. }
  assert (Hcases :
    (∃ out, snd (execute s msg c) = Ok out)
    ∨ (∃ reason k, snd (execute s msg c) = Fail (Revert reason)
                   ∧ error_kind (Revert reason) = Some k)).
  { destruct c as [r|a|a|id h t m|i h m|i|a i|a|a|a| |a| | ];
      try (left; eexists; reflexivity).
    - rewrite exec_setPatientRegistryContract. case_if; cbn [snd]; eauto.
    - rewrite exec_authorizePatient. case_if; cbn [snd]; eauto.
    - rewrite exec_deauthorizePatient. case_if; cbn [snd]; eauto.
    - rewrite exec_addMedicalRecord.
      pose proof (Hcnt (msg_sender msg)) as Hc. apply N.ltb_lt in Hc, Hroom.
      rewrite Hc, Hroom. case_if; cbn [snd]; eauto.
    - rewrite exec_updateMedicalRecord. case_if; cbn [snd]; eauto.
    - rewrite exec_deactivateMedicalRecord. case_if; cbn [snd]; eauto.
    - rewrite exec_getMedicalRecord. case_if; cbn [snd]; eauto.
    - rewrite exec_getPatientRecordIds by (pose proof (Hcnt a); lia).
      case_if; cbn [snd]; eauto.
    - rewrite exec_transferOwnership. case_if; cbn [snd]; eauto. }
  split; [|exact Hcases].
  intros code Hp. destruct Hcases as [[out Ho]|(reason & k & Hr & _)]; congruence.
Qed.

Lemma X23_witness :
  snd (execute example_state (mkMsg bob 200)
         (AddMedicalRecord "r4" "0xa4" "lab" "{}")) ≠ Fail (Panic 17)
  ∧ snd (execute example_state (mkMsg bob 200) (GetPatientRecordIds bob))
    ≠ Fail (Panic 50).
Proof.
  split.
  - destruct (X23_no_panic (mkMsg alice 99) example_history (mkMsg bob 200)
                (AddMedicalRecord "r4" "0xa4" "lab" "{}")) as (H & _);
      [vm_compute; reflexivity|apply H].
  - destruct (X23_no_panic (mkMsg alice 99) example_history (mkMsg bob 200)
                (GetPatientRecordIds bob)) as (H & _);
      [vm_compute; reflexivity|apply H].
Defined.

(** ** The event log tells the id lists *)

Lemma replay_ids_app a evs1 : ∀ ids evs2,
  replay_ids a ids (evs1 ++ evs2) = replay_ids a (replay_ids a ids evs1) evs2.
Proof.
  induction evs1 as [|e evs1 IH]; intros ids evs2; [reflexivity|].
  destruct e; cbn [app replay_ids]; apply IH.
Qed.

Lemma replay_step s msg c a :
  ledger_inv s →
  active_ids (fst (execute s msg c)) a
  = replay_ids a (active_ids s a)
      match snd (execute s msg c) with
      | Ok (_, evs) => evs
      | Fail _ => []
      end.
Proof.
  intros Hinv.
  assert (Hcnt : ∀ b, count_of s b ≤ MAX_UINT256).
  { intros b. pose proof (count_of_le_sum s b). pose proof (inv_total s Hinv).
    pose proof (inv_bound s Hinv). lia. }
  destruct c as [r|p|p|id h t m|i h m|i|p i|p|p|p| |p| | ]; try reflexivity.
  - rewrite exec_setPatientRegistryContract. case_if; reflexivity.
  - rewrite exec_authorizePatient. case_if; reflexivity.
  - rewrite exec_deauthorizePatient. case_if; reflexivity.
  - rewrite exec_addMedicalRecord. case_if; try reflexivity.
    cbn [fst snd replay_ids]. rewrite active_ids_add_post.
    destruct (decide (msg_sender msg = a)) as [->|Hne].
    + rewrite N.eqb_refl. reflexivity.
    + apply N.eqb_neq in Hne. rewrite Hne. reflexivity.
  - rewrite exec_updateMedicalRecord. case_if; try reflexivity.
    cbn [fst snd replay_ids]. apply active_ids_update_post.
  - rewrite exec_deactivateMedicalRecord.
    destruct (passes_gate s (msg_sender msg)); [|reflexivity].
    destruct (i <? count_of s (msg_sender msg)) eqn:Hlt; [|reflexivity].
    destruct (isActive (record_at s (msg_sender msg) i)); [|reflexivity].
    apply N.ltb_lt in Hlt. cbn [fst snd replay_ids].
    destruct (decide (msg_sender msg = a)) as [<-|Hne].
    + rewrite N.eqb_refl. by apply active_ids_deactivate_post.
    + rewrite active_ids_deactivate_post_other by exact Hne.
      apply N.eqb_neq in Hne. rewrite Hne. reflexivity.
  - rewrite exec_getMedicalRecord. case_if; reflexivity.
  - rewrite exec_getPatientRecordIds by apply Hcnt. case_if; reflexivity.
  - rewrite exec_transferOwnership. case_if; reflexivity.
Qed.

Lemma replay_run tr : ∀ s a,
  ledger_inv s →
  active_ids (run s tr) a = replay_ids a (active_ids s a) (events_of s tr).
Proof.
  induction tr as [|[msg c] tr IH]; intros s a Hinv; cbn [run events_of];
    [reflexivity|].
  rewrite replay_ids_app, <- replay_step by exact Hinv.
  apply IH. eapply ledger_inv_commits; [apply execute_commits|exact Hinv].
Qed.

(** X24 — The events are enough to mirror the contract: replaying the
    log of a history from deployment (append the id of each
    [MedicalRecordAdded] of [a], drop the id of each
    [MedicalRecordDeactivated] of [a]) gives exactly the id list that
    [getPatientRecordIds] returns for [a] in the state reached. *)
Theorem X24_event_log_mirrors_ids (deploy : Msg) (tr : list (Msg * Call)) (a : N) :
  active_ids (run (constructor deploy) tr) a
  = replay_ids a [] (events_of (constructor deploy) tr).
Proof.
  rewrite replay_run by apply ledger_inv_constructor. reflexivity.
Qed.

(** ** The scripts *)



(** X26 — [authorize-patient.js]: the script never ends in its
    "verification failed" branch.  It leaves without a transaction exactly
    when the patient is in the authorization set already; otherwise, run by
    the owner on a non-zero patient it authorizes and verifies; run by
    anybody else it fails with the revert reason that contains the text
    ["Only owner"] its error hint looks for; run by the owner on the zero
    address it fails with ["Invalid address"]. *)
Theorem X26_authorize_script (s : State) (caller patient t_check t_auth t_verify : N) :
  (∀ s', authorize_patient s caller patient t_check t_auth t_verify
         ≠ AuthorizedUnverified s')
  ∧ (authorized s patient = true →
     authorize_patient s caller patient t_check t_auth t_verify = AlreadyAuthorized)
  ∧ (authorized s patient = false →
     caller = owner s → patient ≠ zero_address →
     authorize_patient s caller patient t_check t_auth t_verify
     = AuthorizedVerified (set_authorizedPatients <[patient := true]> s))
  ∧ (authorized s patient = false →
     caller ≠ owner s →
     authorize_patient s caller patient t_check t_auth t_verify
     = AuthorizeFailed (Revert ERR_ONLY_OWNER)
     ∧ String.index 0 "Only owner" ERR_ONLY_OWNER = Some 0%nat)
  ∧ (authorized s patient = false →
     caller = owner s → patient = zero_address →
     authorize_patient s caller patient t_check t_auth t_verify
     = AuthorizeFailed (Revert ERR_INVALID_ADDRESS)).
Proof.
  unfold authorize_patient.
  change (execute s (mkMsg caller t_check) (IsPatientAuthorized patient))
    with (s, @Ok (RetVal * list Event) (VBool (authorized s patient), [])).
  cbv beta iota. rewrite exec_authorizePatient. cbn [msg_sender].
  assert (Hafter : ∀ s1,
            s1 = set_authorizedPatients <[patient := true]> s →
            execute s1 (mkMsg caller t_verify) (IsPatientAuthorized patient)
            = (s1, Ok (VBool true, []))).
  { intros s1 ->.
    change (execute (set_authorizedPatients <[patient := true]> s)
              (mkMsg caller t_verify) (IsPatientAuthorized patient))
      with (set_authorizedPatients <[patient := true]> s,
            @Ok (RetVal * list Event)
              (VBool (authorized (set_authorizedPatients <[patient := true]> s)
                        patient), [])).
    unfold authorized. cbn [authorizedPatients set_authorizedPatients].
    rewrite lookup_insert_eq. reflexivity. }
  split; [|split; [|split; [|split]]].
  - intros s'. destruct (authorized s patient); [discriminate|].
    destruct (caller =? owner s); [|discriminate].
    destruct (patient =? zero_address); [discriminate|].
    rewrite (Hafter _ eq_refl). discriminate.
  - intros ->. reflexivity.
  - intros -> Ho Hnz. apply N.eqb_eq in Ho. apply N.eqb_neq in Hnz.
    rewrite Ho, Hnz, (Hafter _ eq_refl). reflexivity.
  - intros -> Hno. apply N.eqb_neq in Hno. rewrite Hno. split; reflexivity.
  - intros -> Ho ->. apply N.eqb_eq in Ho. rewrite Ho. reflexivity.
Qed.

Lemma X26_witness :
  authorize_patient example_state alice bob 200 201 202 = AlreadyAuthorized
  ∧ authorize_patient example_state alice carol 200 201 202
    = AuthorizedVerified (set_authorizedPatients <[carol := true]> example_state)
  ∧ authorize_patient example_state bob carol 200 201 202
    = AuthorizeFailed (Revert ERR_ONLY_OWNER).
Proof.
  destruct (X26_authorize_script example_state alice bob 200 201 202)
    as (_ & Halready & _).
  destruct (X26_authorize_script example_state alice carol 200 201 202)
    as (_ & _ & Hok & _).
  destruct (X26_authorize_script example_state bob carol 200 201 202)
    as (_ & _ & _ & Hdenied & _).
  split; [apply Halready; vm_compute; reflexivity|]. split.
  - apply Hok; [vm_compute; reflexivity | vm_compute; reflexivity
               | vm_compute; discriminate].
  - apply Hdenied; [vm_compute; reflexivity | vm_compute; discriminate].
Defined.

(** ** Updating and counting *)

(** X27 — [updateMedicalRecord] by a caller that passes the gate, on one
    of its active records with a non-empty hash, returns [true] and emits
    one [MedicalRecordUpdated] with the record's id (the metadata may be
    empty); [getMedicalRecord] then reads the new hash and metadata back;
    and of two updates of the same record only the second is kept. *)
Theorem X27_update_round_trip (s : State) (msg msg2 : Msg) (i : N)
    (h m h2 m2 : string) :
  passes_gate s (msg_sender msg) = true →
  i < count_of s (msg_sender msg) →
  isActive (record_at s (msg_sender msg) i) = true →
  nonempty h = true →
  execute s msg (UpdateMedicalRecord i h m)
  = (update_post msg i h m s,
     Ok (VBool true,
         [MedicalRecordUpdated (msg_sender msg)
            (recordId (record_at s (msg_sender msg) i)) (block_timestamp msg)]))
  ∧ execute (update_post msg i h m s) msg (GetMedicalRecord (msg_sender msg) i)
    = (update_post msg i h m s,
       Ok (VRecord
             (mkMedicalRecord
                (recordId (record_at s (msg_sender msg) i)) h
                (recordType (record_at s (msg_sender msg) i))
                (timestamp (record_at s (msg_sender msg) i))
                (uploadedBy (record_at s (msg_sender msg) i))
                true m), []))
  ∧ (msg_sender msg2 = msg_sender msg →
     nonempty h2 = true →
     run s [(msg, UpdateMedicalRecord i h m); (msg2, UpdateMedicalRecord i h2 m2)]
     = run s [(msg2, UpdateMedicalRecord i h2 m2)]).
Proof.
  intros Hg Hlt Hact Hh. apply N.ltb_lt in Hlt as Hlt'.
  assert (Hex : ∀ h' m' msg', msg_sender msg' = msg_sender msg → nonempty h' = true →
            execute s msg' (UpdateMedicalRecord i h' m')
            = (update_post msg' i h' m' s,
               Ok (VBool true,
                   [MedicalRecordUpdated (msg_sender msg')
                      (recordId (record_at s (msg_sender msg') i))
                      (block_timestamp msg')]))).
  { intros h' m' msg' Hs Hh'.
    rewrite exec_updateMedicalRecord, Hs, Hg, Hlt', Hact, Hh'. reflexivity. }
  split; [by apply Hex|]. split.
  - rewrite exec_getMedicalRecord, N.eqb_refl. cbn [orb].
    change (count_of (update_post msg i h m s) (msg_sender msg))
      with (count_of s (msg_sender msg)).
    rewrite Hlt', record_at_update_post, decide_True by reflexivity.
    unfold with_metadata, with_encryptedDataHash. cbn. rewrite Hact. reflexivity.
  - intros Hs Hh2. cbn [run].
    rewrite (Hex h m msg eq_refl Hh), (Hex h2 m2 msg2 Hs Hh2). cbn [fst].
    rewrite exec_updateMedicalRecord, Hs.
    change (passes_gate (update_post msg i h m s)) with (passes_gate s).
    change (count_of (update_post msg i h m s) (msg_sender msg))
      with (count_of s (msg_sender msg)).
    rewrite Hg, Hlt', record_at_update_post, decide_True by reflexivity.
    cbn [isActive with_metadata with_encryptedDataHash]. rewrite Hact, Hh2.
    cbn [fst]. unfold update_post, set_patientRecords. cbn [patientRecords
      patientRecordCount recordIdExists authorizedPatients owner
      patientRegistryContract totalRecordsStored].
    rewrite Hs, insert_insert_eq.
    rewrite record_at_mk. reflexivity.
Qed.

Lemma X27_witness :
  execute example_state (mkMsg bob 200) (UpdateMedicalRecord 0 "0xbb" EmptyString)
  = (update_post (mkMsg bob 200) 0 "0xbb" EmptyString example_state,
     Ok (VBool true, [MedicalRecordUpdated bob "r1" 200]))
  ∧ execute (update_post (mkMsg bob 200) 0 "0xbb" EmptyString example_state)
      (mkMsg bob 200) (GetMedicalRecord bob 0)
    = (update_post (mkMsg bob 200) 0 "0xbb" EmptyString example_state,
       Ok (VRecord (mkMedicalRecord "r1" "0xbb" "lab" 101 bob true EmptyString), [])).
Proof.
  destruct (X27_update_round_trip example_state (mkMsg bob 200) (mkMsg bob 201) 0
              "0xbb" EmptyString "0xcc" "{}")
    as (Hup & Hget & _);
    [ vm_compute; reflexivity | vm_compute; reflexivity
    | vm_compute; reflexivity | reflexivity |].
  split; [exact Hup|].
  etransitivity; [exact Hget|]. vm_compute. reflexivity.
Defined.

(** X28 — The counters are bounded by the length of the history: after
    [n] transactions from deployment at most [n] records are stored, the
    count of an address is at most the total, and both fit a [uint256]. *)
Theorem X28_counters_bounded (deploy : Msg) (tr : list (Msg * Call)) (a : N) :
  totalRecordsStored (run (constructor deploy) tr) ≤ N.of_nat (length tr)
  ∧ count_of (run (constructor deploy) tr) a
    ≤ totalRecordsStored (run (constructor deploy) tr)
  ∧ totalRecordsStored (run (constructor deploy) tr) ≤ MAX_UINT256.
Proof.
  pose proof (ledger_inv_run tr _ (ledger_inv_constructor deploy)) as Hinv.
  pose proof (total_le_history tr (constructor deploy)) as Htot.
  cbn [constructor totalRecordsStored] in Htot.
  split; [lia|]. split; [|apply (inv_bound _ Hinv)].
  rewrite (inv_total _ Hinv). apply count_of_le_sum.
Qed.
